(** * people: stream validation, enrichment and dead-letter routing

    A shallow embedding of the Kafka pipeline of the [people] service:
    - package [models]: [FullName.IsValid], [Entry.IsValid], [Entry.Enrich],
      [apiReq] and the three lookup goroutines [age], [gender],
      [nationality];
    - package [handlers]: [ProcessMsg];
    - package [kafka]: [Topic.Produce], as far as [ProcessMsg] uses it.

    Go strings are byte sequences, so they are Rocq [string]s and [len] is
    [String.length]; the regular expressions work on the runes decoded from
    them.  What lies outside the repository (the HTTP services, the JSON
    codec, the store, the broker) is a [World] every definition takes.

    [Enrich] starts four goroutines and ranges over a channel of capacity 1.
    It is embedded as a step function over an explicit state holding the
    shared [Entry], the buffer of the channel, the wait group and what is
    left of each goroutine; a schedule picks the thread that moves.  The
    properties are invariants of every schedule. *)

From Stdlib Require Import String Ascii List ZArith Zbitwise Bool Lia Arith
  DecimalString.
Import ListNotations.
Open Scope string_scope.
#[local] Set Warnings "-register-all".

(** ** Bytes, runes and the two regular expressions *)

Module Utf8.

Local Open Scope Z_scope.

Definition byte_val (a : ascii) : Z := Z.of_N (N_of_ascii a).

Definition bytes_of (s : string) : list Z :=
  map byte_val (list_ascii_of_string s).

(** [utf8.RuneError], produced with width 1 for every malformed sequence. *)
Definition RuneError : Z := 65533.

Definition between (lo hi b : Z) : bool := (lo <=? b) && (b <=? hi).

Definition is_cont (b : Z) : bool := between 128 191 b.

(** Accepted range of the second byte, by first byte (Go's
    [acceptRanges]): it rules out overlong forms and surrogates. *)
Definition second_range (b0 : Z) : Z * Z :=
  if b0 =? 224 then (160, 191)
  else if b0 =? 237 then (128, 159)
  else if b0 =? 240 then (144, 191)
  else if b0 =? 244 then (128, 143)
  else (128, 191).

(** [utf8.DecodeRuneInString] on [b0 :: rest]: the rune and its width. *)
Definition DecodeRune (b0 : Z) (rest : list Z) : Z * nat :=
  if b0 <? 128 then (b0, 1%nat)
  else if between 194 223 b0 then
    match rest with
    | b1 :: _ =>
        if is_cont b1
        then (Z.lor (Z.shiftl (Z.land b0 31) 6) (Z.land b1 63), 2%nat)
        else (RuneError, 1%nat)
    | _ => (RuneError, 1%nat)
    end
  else if between 224 239 b0 then
    match rest with
    | b1 :: b2 :: _ =>
        let '(lo, hi) := second_range b0 in
        if between lo hi b1 && is_cont b2
        then (Z.lor (Z.shiftl (Z.land b0 15) 12)
                (Z.lor (Z.shiftl (Z.land b1 63) 6) (Z.land b2 63)), 3%nat)
        else (RuneError, 1%nat)
    | _ => (RuneError, 1%nat)
    end
  else if between 240 244 b0 then
    match rest with
    | b1 :: b2 :: b3 :: _ =>
        let '(lo, hi) := second_range b0 in
        if between lo hi b1 && is_cont b2 && is_cont b3
        then (Z.lor (Z.shiftl (Z.land b0 7) 18)
                (Z.lor (Z.shiftl (Z.land b1 63) 12)
                   (Z.lor (Z.shiftl (Z.land b2 63) 6) (Z.land b3 63))),
              4%nat)
        else (RuneError, 1%nat)
    | _ => (RuneError, 1%nat)
    end
  else (RuneError, 1%nat).

(** The runes of a byte sequence, as the regexp engine steps through it.
    Every rune consumes at least one byte, so the length is enough fuel. *)
Fixpoint runes_fuel (fuel : nat) (bs : list Z) : list Z :=
  match fuel, bs with
  | S k, b0 :: rest =>
      let '(r, w) := DecodeRune b0 rest in
      r :: runes_fuel k (skipn (Nat.pred w) rest)
  | _, _ => []
  end.

Definition runes (s : string) : list Z :=
  let bs := bytes_of s in runes_fuel (length bs) bs.

(** [utf8.RuneCountInString]. *)
Definition RuneCount (s : string) : nat := length (runes s).

End Utf8.

Module Regexp.

Local Open Scope Z_scope.

(** A bracket expression is a list of inclusive rune ranges. *)
Definition class := list (Z * Z).

Definition in_class (c : class) (r : Z) : bool :=
  existsb (fun '(lo, hi) => Utf8.between lo hi r) c.

(** [[a-zA-Zа-яА-Я]]: а-я is U+0430..U+044F and А-Я is U+0410..U+042F. *)
Definition name_class : class :=
  [(97, 122); (65, 90); (1072, 1103); (1040, 1071)].

(** [[A-Z]] *)
Definition upper_class : class := [(65, 90)].

(** [^C+$]: the whole text is one or more runes of the class. *)
Definition match_plus (c : class) (s : string) : bool :=
  match Utf8.runes s with
  | [] => false
  | rs => forallb (in_class c) rs
  end.

(** [^C{2}$]: the whole text is exactly two runes of the class. *)
Definition match_two (c : class) (s : string) : bool :=
  match Utf8.runes s with
  | [r1; r2] => in_class c r1 && in_class c r2
  | _ => false
  end.

(** [regexp.MustCompile(namePattern).MatchString] *)
Definition namePattern : string -> bool := match_plus name_class.

(** [regexp.MustCompile(countryPattern).MatchString] *)
Definition countryPattern : string -> bool := match_two upper_class.

End Regexp.

(** ** package models: the records *)

(** Go's [error]: [None] is [nil], [Some m] an error with message [m]. *)
Definition error := option string.

Record FullName := mkFullName {
  fn_Name : string;
  fn_Surname : string;
  fn_Patronymic : string;
  fn_Error : string
}.

(** [Age] is a [uint8], [ID] a [uint]; both are kept as integers. *)
Record Entry := mkEntry {
  ID : Z;
  Name : string;
  Surname : string;
  Patronymic : string;
  Age : Z;
  Gender : string;
  Nationality : string
}.

(** [strings.Join] *)
Definition Join (l : list string) (sep : string) : string := String.concat sep l.

Definition is_empty (s : string) : bool :=
  match s with EmptyString => true | _ => false end.

Module FullNameM.

(** The first [switch] of [IsValid]: at most one message for the name. *)
Definition name_case (n : string) : list string :=
  if is_empty n then ["name cannot be empty"]
  else if (String.length n <? 2)%nat then ["name is too short"]
  else if (50 <? String.length n)%nat then ["name is too long"]
  else if negb (Regexp.namePattern n) then ["name contains invalid characters"]
  else [].

(** The second [switch]. *)
Definition surname_case (n : string) : list string :=
  if is_empty n then ["surname cannot be empty"]
  else if (String.length n <? 2)%nat then ["surname is too short"]
  else if (50 <? String.length n)%nat then ["surname is too long"]
  else if negb (Regexp.namePattern n) then ["surname contains invalid characters"]
  else [].

Definition errContent (e : FullName) : list string :=
  name_case (fn_Name e) ++ surname_case (fn_Surname e).

(** [func (e *FullName) IsValid() string] *)
Definition IsValid (e : FullName) : string :=
  let errContent := errContent e in
  if (length errContent =? 0)%nat then ""
  else Join errContent ", ".

End FullNameM.

Module EntryM.

Local Open Scope Z_scope.

Definition age_case (a : Z) : list string :=
  if (a <? 1) || (120 <? a) then ["age contains invalid data"] else [].

Definition gender_case (g : string) : list string :=
  if is_empty g then ["gender cannot be empty"]
  else if negb (String.eqb g "male") && negb (String.eqb g "female")
  then ["only “male” or “female” gender is available"]
  else [].

Definition nationality_case (n : string) : list string :=
  if is_empty n then ["nationality cannot be empty"]
  else if negb (Regexp.countryPattern n)
  then ["nationality contains invalid data (example: RU, US)"]
  else [].

Definition errContent (e : Entry) : list string :=
  FullNameM.name_case (Name e) ++ FullNameM.surname_case (Surname e)
  ++ age_case (Age e) ++ gender_case (Gender e)
  ++ nationality_case (Nationality e).

(** [func (e *Entry) IsValid() error] *)
Definition IsValid (e : Entry) : error :=
  let errContent := errContent e in
  if (length errContent =? 0)%nat then None
  else Some (Join errContent ", ").

End EntryM.

(** ** Decoded JSON and the world outside the repository *)

(** A finite binary64 value [mant * 2^expo]; [encoding/json] never yields an
    infinity or a NaN. *)
Record float64 := mkFloat { mant : Z; expo : Z }.

Definition float_zero : float64 := mkFloat 0 0.

Definition float_of_Z (z : Z) : float64 := mkFloat z 0.

(** What [json] decoding stores in an [interface{}]. *)
Inductive json :=
| JNull
| JBool (b : bool)
| JNum (f : float64)
| JStr (s : string)
| JArr (l : list json)
| JObj (m : list (string * json)).

(** [map[string]interface{}]; the nil map is the empty list. *)
Definition gomap := list (string * json).

(** [m[k]]: a missing key gives the nil interface. *)
Fixpoint lookup (m : gomap) (k : string) : json :=
  match m with
  | [] => JNull
  | (k', v) :: rest => if String.eqb k k' then v else lookup rest k
  end.

(** What a lookup service answers to one GET.  The decoder checks the
    syntax of the whole body before it stores anything, so a body that is
    not JSON, or not an object, leaves the map nil; a value that does not
    fit (a number out of the range of [float64]) is recorded as an error
    while the rest of the object is stored.  Every GET is taken to come
    back: [http.Get] is called without a timeout, and a service that never
    answers keeps its goroutine inside [apiReq]; such runs do not end and
    are not among the executions below. *)
Inductive response :=
| Unreachable (err : string)     (* [http.Get] fails *)
| BadBody (err : string)         (* the body does not decode into a map *)
| Misfit (err : string) (m : gomap)
                                 (* decoded into [m], with an error for a
                                    value that did not fit *)
| Object (m : gomap).            (* the decoded body *)

Record World := mkWorld {
  (** [http.Get] followed by the decoding of the body *)
  http_Get : string -> response;
  (** [uint8(f)] where [f] truncates outside 0..255: Go leaves the result
      to the implementation *)
  uint8_overflow : float64 -> Z;
  (** [json.Unmarshal(msg, &dataMsg)] *)
  json_Unmarshal : string -> string + FullName;
  (** [json.Marshal(dataMsg)] *)
  json_Marshal : FullName -> string + string;
  (** [db.C.Create(&entry)]: the error, or the key the store assigns *)
  db_Create : Entry -> string + Z;
  (** in [Topic.Produce], whether [prod.Successes()] answers for the value
      rather than [prod.Errors()] *)
  broker_ack : string -> bool
}.

Definition trunc (f : float64) : Z :=
  if (0 <=? expo f)%Z then (mant f * 2 ^ expo f)%Z
  else Z.quot (mant f) (2 ^ (- expo f)).

(** The conversion [uint8(target)] of a [float64]. *)
Definition uint8_of_float64 (w : World) (f : float64) : Z :=
  let t := trunc f in
  if ((0 <=? t) && (t <=? 255))%Z then t
  else (uint8_overflow w f mod 256)%Z.

(** [func apiReq(url string, reqData *map[string]interface{}) error];
    the map starts nil at every call site. *)
Definition apiReq (w : World) (url : string) : error * gomap :=
  match http_Get w url with
  | Unreachable err => (Some err, [])
  | BadBody err => (Some err, [])
  | Misfit err m => (Some err, m)
  | Object m => (None, m)
  end.

(** ** The lookup goroutines *)

(** What a goroutine does to the state it shares with [Enrich]: a send on
    [ch], the store through its result pointer, a run-time panic, and the
    deferred [wg.Done()] at its return.  None of the goroutines returns
    early, so each is the list of these actions in program order, fixed by
    the answer of its service. *)
Inductive action (V : Type) :=
| Send (err : string)
| Store (v : V)
| Panic (msg : string)
| Done.
Arguments Send {V} err.
Arguments Store {V} v.
Arguments Panic {V} msg.
Arguments Done {V}.

(** [if err != nil { ch <- err }] *)
Definition send_if {V} (err : error) : list (action V) :=
  match err with Some m => [Send m] | None => [] end.

(** [if cond { ch <- errors.New(m) }] *)
Definition send_when {V} (cond : bool) (m : string) : list (action V) :=
  if cond then [Send m] else [].

(** [func age(name string, age *uint8, wg *sync.WaitGroup, ch chan error)] *)
Definition age (w : World) (name : string) : list (action Z) :=
  let url := "https://api.agify.io/?name=" ++ name in
  let '(err, reqData) := apiReq w url in
  send_if err
  ++ (let '(target, ok) :=
        match lookup reqData "age" with
        | JNum f => (f, true)
        | _ => (float_zero, false)
        end in
      send_when (negb ok) "age data not found"
      ++ [Store (uint8_of_float64 w target); Done]).

(** [func gender(name string, gender *string, wg *sync.WaitGroup, ch chan error)] *)
Definition gender (w : World) (name : string) : list (action string) :=
  let url := "https://api.genderize.io/?name=" ++ name in
  let '(err, reqData) := apiReq w url in
  send_if err
  ++ (let '(target, ok) :=
        match lookup reqData "gender" with
        | JStr s => (s, true)
        | _ => ("", false)
        end in
      send_when (negb ok) "gender data not found"
      ++ [Store target; Done]).

(** [func nationality(name string, nation *string, wg *sync.WaitGroup, ch chan error)];
    [countryList[0]] is evaluated whatever the test before it found, and
    panics on an empty or nil list. *)
Definition nationality (w : World) (name : string) : list (action string) :=
  let url := "https://api.nationalize.io/?name=" ++ name in
  let '(err, reqData) := apiReq w url in
  send_if err
  ++ (let '(countryList, ok) :=
        match lookup reqData "country" with
        | JArr l => (l, true)
        | _ => ([], false)
        end in
      send_when (negb ok || (length countryList =? 0)%nat)
        "country data not found"
      ++ match countryList with
         | [] => [Panic "runtime error: index out of range [0] with length 0"]
         | first :: _ =>
             let '(firstCountry, ok) :=
               match first with
               | JObj m => (m, true)
               | _ => ([], false)
               end in
             send_when (negb ok) "invalid country data"
             ++ (let '(countryID, ok) :=
                   match lookup firstCountry "country_id" with
                   | JStr s => (s, true)
                   | _ => ("", false)
                   end in
                 send_when (negb ok) "country ID not found"
                 ++ [Store countryID; Done])
         end).

(** ** [Entry.Enrich] as interleaved goroutines *)

Inductive thread := TAge | TGender | TNation | TCloser | TMain.

Record EState := mkEState {
  entry : Entry;                    (* the receiver [e] *)
  errCh : list string;              (* buffer of [errCh], capacity 1 *)
  closed : bool;                    (* [close(errCh)] has run *)
  tasks : nat;                      (* counter of the wait group *)
  g_age : list (action Z);          (* what is left of [age] *)
  g_gender : list (action string);
  g_nation : list (action string);
  ret : option error;               (* [Some r] once [Enrich] returned [r] *)
  crashed : bool                    (* an unrecovered panic ended the process *)
}.

Definition errCh_cap : nat := 1.

Definition set_Age (e : Entry) (v : Z) : Entry :=
  mkEntry (ID e) (Name e) (Surname e) (Patronymic e) v (Gender e) (Nationality e).
Definition set_Gender (e : Entry) (v : string) : Entry :=
  mkEntry (ID e) (Name e) (Surname e) (Patronymic e) (Age e) v (Nationality e).
Definition set_Nationality (e : Entry) (v : string) : Entry :=
  mkEntry (ID e) (Name e) (Surname e) (Patronymic e) (Age e) (Gender e) v.

(** The part of the state one action of a goroutine touches. *)
Record Shared := mkShared {
  sh_entry : Entry; sh_errCh : list string; sh_tasks : nat; sh_crashed : bool
}.

(** One action of a goroutine whose result pointer is written by [store].
    [None]: the goroutine is blocked (or has returned).  A send blocks while
    the buffer is full; a send on a closed channel panics.  A panic is not
    recovered anywhere, so it ends the process: the goroutine stays where it
    is and [sh_crashed] is set (the deferred [wg.Done()] still runs on the
    way out, but the run-time exits right after it). *)
Definition act {V} (store : Entry -> V -> Entry) (is_closed : bool)
    (prog : list (action V)) (sh : Shared) : option (list (action V) * Shared) :=
  match prog with
  | [] => None
  | Send m :: rest =>
      if is_closed
      then Some (prog, mkShared (sh_entry sh) (sh_errCh sh) (sh_tasks sh) true)
      else if (length (sh_errCh sh) <? errCh_cap)%nat
      then Some (rest, mkShared (sh_entry sh) (sh_errCh sh ++ [m]) (sh_tasks sh)
                         (sh_crashed sh))
      else None
  | Store v :: rest =>
      Some (rest, mkShared (store (sh_entry sh) v) (sh_errCh sh) (sh_tasks sh)
                    (sh_crashed sh))
  | Panic _ :: _ =>
      Some (prog, mkShared (sh_entry sh) (sh_errCh sh) (sh_tasks sh) true)
  | Done :: rest =>
      Some (rest, mkShared (sh_entry sh) (sh_errCh sh) (Nat.pred (sh_tasks sh))
                    (sh_crashed sh))
  end.

Definition shared_of (s : EState) : Shared :=
  mkShared (entry s) (errCh s) (tasks s) (crashed s).

(** One step of thread [t]; nothing runs once the process has crashed. *)
Definition estep (t : thread) (s : EState) : option EState :=
  if crashed s then None else
  match t with
  | TAge =>
      match act set_Age (closed s) (g_age s) (shared_of s) with
      | Some (p, sh) =>
          Some (mkEState (sh_entry sh) (sh_errCh sh) (closed s) (sh_tasks sh)
                  p (g_gender s) (g_nation s) (ret s) (sh_crashed sh))
      | None => None
      end
  | TGender =>
      match act set_Gender (closed s) (g_gender s) (shared_of s) with
      | Some (p, sh) =>
          Some (mkEState (sh_entry sh) (sh_errCh sh) (closed s) (sh_tasks sh)
                  (g_age s) p (g_nation s) (ret s) (sh_crashed sh))
      | None => None
      end
  | TNation =>
      match act set_Nationality (closed s) (g_nation s) (shared_of s) with
      | Some (p, sh) =>
          Some (mkEState (sh_entry sh) (sh_errCh sh) (closed s) (sh_tasks sh)
                  (g_age s) (g_gender s) p (ret s) (sh_crashed sh))
      | None => None
      end
  | TCloser =>
      (* [tasks.Wait(); close(errCh)] *)
      if (tasks s =? 0)%nat && negb (closed s)
      then Some (mkEState (entry s) (errCh s) true (tasks s)
                   (g_age s) (g_gender s) (g_nation s) (ret s) (crashed s))
      else None
  | TMain =>
      (* [for err := range errCh { return err }; return nil] *)
      match ret s with
      | Some _ => None
      | None =>
          match errCh s with
          | err :: rest =>
              Some (mkEState (entry s) rest (closed s) (tasks s)
                      (g_age s) (g_gender s) (g_nation s) (Some (Some err))
                      (crashed s))
          | [] =>
              if closed s
              then Some (mkEState (entry s) [] (closed s) (tasks s)
                           (g_age s) (g_gender s) (g_nation s) (Some None)
                           (crashed s))
              else None
          end
      end
  end.

(** [func (e *Entry) Enrich(name string) error], at the moment the four
    goroutines have been started. *)
Definition Enrich (w : World) (e : Entry) (name : string) : EState :=
  mkEState e [] false 3 (age w name) (gender w name) (nationality w name)
    None false.

(** A schedule names the thread that moves at each step. *)
Fixpoint erun (sched : list thread) (s : EState) : option EState :=
  match sched with
  | [] => Some s
  | t :: rest =>
      match estep t s with
      | Some s' => erun rest s'
      | None => None
      end
  end.

Definition all_threads : list thread := [TAge; TGender; TNation; TCloser; TMain].

(** No thread can move: the execution is over. *)
Definition eterminal (s : EState) : bool :=
  forallb (fun t => match estep t s with None => true | Some _ => false end)
    all_threads.

(** ** package handlers: [ProcessMsg] *)

(** What one run of [ProcessMsg] leaves behind. *)
Record Effects := mkEffects {
  produced : list string;    (* values handed to [failTopic.Produce] *)
  published : list string;   (* those of them that reached the failure stream *)
  rows : list Entry;         (* rows written by [db.C.Create] *)
  flushes : nat              (* calls of [cRedis.FlushAll] *)
}.

Definition with_Error (d : FullName) (cause : string) : FullName :=
  mkFullName (fn_Name d) (fn_Surname d) (fn_Patronymic d) cause.

Definition set_ID (e : Entry) (id : Z) : Entry :=
  mkEntry id (Name e) (Surname e) (Patronymic e) (Age e) (Gender e)
    (Nationality e).

(** [func (arg Topic) Produce(val []byte, prod sarama.AsyncProducer) string]
    on the failure topic; [ProcessMsg] drops the status it returns. *)
Definition Produce (w : World) (val : string) : Effects :=
  mkEffects [val] (if broker_ack w val then [val] else []) [] 0.

(** The block shared by the three failure branches: set [dataMsg.Error],
    marshal, and produce the result, or the original [msg] when marshalling
    fails. *)
Definition dead_letter (w : World) (msg : string) (dataMsg : FullName)
    (cause : string) : Effects :=
  match json_Marshal w (with_Error dataMsg cause) with
  | inl _ => Produce w msg
  | inr jsonData => Produce w jsonData
  end.

(** [ProcessMsg] up to the call of [entry.Enrich]: it has either ended
    already, or the goroutines of [Enrich] are running. *)
Inductive Started :=
| Early (fx : Effects)
| Enriching (dataMsg : FullName) (s : EState).

Definition new_entry (dataMsg : FullName) : Entry :=
  mkEntry 0 (fn_Name dataMsg) (fn_Surname dataMsg) (fn_Patronymic dataMsg)
    0 "" "".

Definition ProcessMsg_start (w : World) (msg : string) : Started :=
  match json_Unmarshal w msg with
  | inl _ => Early (Produce w msg)
  | inr dataMsg =>
      let result := FullNameM.IsValid dataMsg in
      if negb (String.eqb result "")
      then Early (dead_letter w msg dataMsg result)
      else
        let entry := new_entry dataMsg in
        Enriching dataMsg (Enrich w entry (Name entry))
  end.

(** [ProcessMsg] from the return of [entry.Enrich] on. *)
Definition ProcessMsg_finish (w : World) (msg : string) (dataMsg : FullName)
    (entry : Entry) (err : error) : Effects :=
  match err with
  | Some m =>
      dead_letter w msg dataMsg ("Failed to enrich data from API: " ++ m)
  | None =>
      match db_Create w entry with
      | inl m => dead_letter w msg dataMsg ("Failed to create entry: " ++ m)
      | inr id => mkEffects [] [] [set_ID entry id] 1
      end
  end.

(** The goroutine of [ProcessMsg] together with the goroutines [Enrich]
    started, which keep running after [Enrich] has returned. *)
Record PState := mkPState {
  es : EState;
  fx : option Effects        (* [Some] once [ProcessMsg] has returned *)
}.

Definition pstep (w : World) (msg : string) (dataMsg : FullName)
    (t : thread) (p : PState) : option PState :=
  if crashed (es p) then None else
  match t, ret (es p), fx p with
  | TMain, Some r, None =>
      Some (mkPState (es p)
              (Some (ProcessMsg_finish w msg dataMsg (entry (es p)) r)))
  | TMain, Some _, Some _ => None
  | _, _, _ =>
      match estep t (es p) with
      | Some s' => Some (mkPState s' (fx p))
      | None => None
      end
  end.

Fixpoint prun (w : World) (msg : string) (dataMsg : FullName)
    (sched : list thread) (p : PState) : option PState :=
  match sched with
  | [] => Some p
  | t :: rest =>
      match pstep w msg dataMsg t p with
      | Some p' => prun w msg dataMsg rest p'
      | None => None
      end
  end.

Definition pterminal (w : World) (msg : string) (dataMsg : FullName)
    (p : PState) : bool :=
  forallb (fun t => match pstep w msg dataMsg t p with
                    | None => true | Some _ => false end)
    all_threads.

(** ** Vocabulary of the properties *)

(** The errors a goroutine reports on [ch], in order. *)
Fixpoint sends {V} (p : list (action V)) : list string :=
  match p with
  | [] => []
  | Send m :: q => m :: sends q
  | _ :: q => sends q
  end.

(** The values a goroutine stores through its result pointer. *)
Fixpoint stores {V} (p : list (action V)) : list V :=
  match p with
  | [] => []
  | Store v :: q => v :: stores q
  | _ :: q => stores q
  end.

Fixpoint panics {V} (p : list (action V)) : bool :=
  match p with
  | [] => false
  | Panic _ :: _ => true
  | _ :: q => panics q
  end.

(** A goroutine that has not yet returned holds one unit of the wait group. *)
Definition pending {V} (p : list (action V)) : nat :=
  match p with [] => 0 | _ => 1 end.

(** A goroutine ends with its deferred [Done] or in a panic, and with
    nothing after it. *)
Fixpoint ends_ok {V} (p : list (action V)) : bool :=
  match p with
  | [] => false
  | [Done] => true
  | Done :: _ => false
  | Panic _ :: _ => true
  | _ :: q => ends_ok q
  end.

(** The failures of one lookup, and of the three of them. *)
Definition age_failures (w : World) (name : string) := sends (age w name).
Definition gender_failures (w : World) (name : string) := sends (gender w name).
Definition nationality_failures (w : World) (name : string) :=
  sends (nationality w name).

Definition failures (w : World) (name : string) : list string :=
  age_failures w name ++ gender_failures w name ++ nationality_failures w name.

Definition sends_left (s : EState) : nat :=
  length (sends (g_age s)) + length (sends (g_gender s))
  + length (sends (g_nation s)).

(** How many errors [Enrich] has taken out of [errCh]. *)
Definition received (s : EState) : nat :=
  match ret s with Some (Some _) => 1 | _ => 0 end.

Definition head_is_send {V} (p : list (action V)) : bool :=
  match p with Send _ :: _ => true | _ => false end.

(** A lookup goroutine sits at a send that cannot proceed. *)
Definition blocked {V} (s : EState) (p : list (action V)) : bool :=
  head_is_send p && negb (length (errCh s) <? errCh_cap)%nat.

(** Bounds on the number of steps left. *)
Definition emeasure (s : EState) : nat :=
  if crashed s then 0
  else 1 + length (g_age s) + length (g_gender s) + length (g_nation s)
       + (if closed s then 0 else 1)
       + (match ret s with None => 1 | Some _ => 0 end).

Definition pmeasure (p : PState) : nat :=
  if crashed (es p) then 0
  else emeasure (es p) + (match fx p with None => 1 | Some _ => 0 end).

(** [cause] occurs in the text of [err]. *)
Definition mentions (err cause : string) : bool :=
  match String.index 0 cause err with Some _ => true | None => false end.

(** An aggregated failure tells of every lookup that failed: it carries one
    of the errors of each of them. *)
Definition describes (err : string) (lookup_failures : list string) : bool :=
  match lookup_failures with
  | [] => true
  | _ => existsb (mentions err) lookup_failures
  end.

Definition aggregated (w : World) (name : string) (err : string) : bool :=
  describes err (age_failures w name)
  && describes err (gender_failures w name)
  && describes err (nationality_failures w name).

(** The validity the synchronous surface asks of a row before it is stored. *)
Definition persistable (e : Entry) : Prop :=
  (1 <= Age e <= 120)%Z
  /\ (Gender e = "male" \/ Gender e = "female")
  /\ Regexp.countryPattern (Nationality e) = true
  /\ Name e <> "" /\ Surname e <> "" /\ Gender e <> "" /\ Nationality e <> "".

(** A value on the failure stream is a JSON-encoded record with its cause. *)
Definition is_dead_letter_record (w : World) (val : string) : Prop :=
  exists d, json_Unmarshal w val = inr d /\ fn_Error d <> "".

Definition failure_outcome (f : Effects) : Prop :=
  length (produced f) = 1%nat /\ rows f = [].


(** *** The validator as the specification words it

    Every rule a field violates, in the order non-empty, length, pattern. *)
Definition violated_rules (field : string) (v : string) : list string :=
  (if is_empty v then [field ++ " cannot be empty"] else [])
  ++ (if (String.length v <? 2)%nat then [field ++ " is too short"]
      else if (50 <? String.length v)%nat then [field ++ " is too long"]
      else [])
  ++ (if Regexp.namePattern v then []
      else [field ++ " contains invalid characters"]).

Definition all_violations (e : FullName) : list string :=
  violated_rules "name" (fn_Name e) ++ violated_rules "surname" (fn_Surname e).

(** The first violated rule of each field only. *)
Definition first_violations (e : FullName) : list string :=
  firstn 1 (violated_rules "name" (fn_Name e))
  ++ firstn 1 (violated_rules "surname" (fn_Surname e)).

(** A field as the validator accepts it: 2 to 50 bytes, every rune in
    a-z, A-Z, а-я or А-Я. *)
Definition field_ok (v : string) : Prop :=
  (2 <= String.length v <= 50)%nat
  /\ Utf8.runes v <> []
  /\ Forall (fun r => Regexp.in_class Regexp.name_class r = true) (Utf8.runes v).

(** *** Invariants of the executions of [Enrich] *)

(** The fields [Enrich] has no pointer to. *)
Definition same_identity (e e' : Entry) : Prop :=
  ID e' = ID e /\ Name e' = Name e /\ Surname e' = Surname e
  /\ Patronymic e' = Patronymic e.

(** Every error is still to be sent, in the buffer, or was received. *)
Definition accounted (w : World) (name : string) (s : EState) : Prop :=
  (length (errCh s) <= errCh_cap)%nat
  /\ sends_left s + length (errCh s) + received s = length (failures w name).

Definition shaped {V} (p : list (action V)) : Prop :=
  p = [] \/ ends_ok p = true.

(** The wait group counts the goroutines that have not returned, and the
    channel is closed only when none is left. *)
Definition waited (s : EState) : Prop :=
  tasks s = pending (g_age s) + pending (g_gender s) + pending (g_nation s)
  /\ shaped (g_age s) /\ shaped (g_gender s) /\ shaped (g_nation s)
  /\ (closed s = true -> tasks s = 0)
  /\ (ret s = Some None -> closed s = true).

(** Nothing but the errors of the lookups travels through [errCh]. *)
Definition reported (w : World) (name : string) (s : EState) : Prop :=
  incl (sends (g_age s)) (failures w name)
  /\ incl (sends (g_gender s)) (failures w name)
  /\ incl (sends (g_nation s)) (failures w name)
  /\ incl (errCh s) (failures w name)
  /\ (forall err, ret s = Some (Some err) -> In err (failures w name)).

(** A result pointer holds the value of the goroutine's one store as soon
    as the store has run. *)
Definition store_inv {V} (full cur : list (action V)) (field : V) : Prop :=
  forall v, stores full = [v] -> stores cur = [v] \/ (stores cur = [] /\ field = v).

Definition stored (w : World) (name : string) (s : EState) : Prop :=
  store_inv (age w name) (g_age s) (Age (entry s))
  /\ store_inv (gender w name) (g_gender s) (Gender (entry s))
  /\ store_inv (nationality w name) (g_nation s) (Nationality (entry s))
  /\ (panics (nationality w name) = true -> panics (g_nation s) = true).

(** The three results as the goroutines store them. *)
Definition enriched (w : World) (name : string) (e : Entry) : Prop :=
  (forall v, stores (age w name) = [v] -> Age e = v)
  /\ (forall v, stores (gender w name) = [v] -> Gender e = v)
  /\ (forall v, stores (nationality w name) = [v] -> Nationality e = v).

(** All of the above, for the execution started by [e0.Enrich(name)]. *)
Definition einv (w : World) (e0 : Entry) (name : string) (s : EState) : Prop :=
  accounted w name s /\ waited s /\ reported w name s /\ stored w name s
  /\ same_identity e0 (entry s)
  /\ (ret s = Some None ->
      failures w name = [] /\ panics (nationality w name) = false
      /\ enriched w name (entry s)).

(** Once [ProcessMsg] has returned, its effects are those of its last part
    on what [Enrich] returned. *)
Definition finished (w : World) (msg : string) (d : FullName) (e0 : Entry)
    (name : string) (p : PState) : Prop :=
  forall f, fx p = Some f ->
    exists r e, ret (es p) = Some r
      /\ f = ProcessMsg_finish w msg d e r
      /\ (r = None -> enriched w name e /\ same_identity e0 e).

Definition pinv (w : World) (msg : string) (d : FullName) (e0 : Entry)
    (name : string) (p : PState) : Prop :=
  einv w e0 name (es p) /\ finished w msg d e0 name p.

(** *** The claims on enrichment as the specification words them *)

(** Whenever [Enrich] returns after a lookup failed, it returns a failure
    that tells of every lookup that failed. *)
Definition Enrich_aggregates (w : World) (e : Entry) (name : string) : Prop :=
  failures w name <> [] ->
  forall sched s r,
    erun sched (Enrich w e name) = Some s -> ret s = Some r ->
    exists err, r = Some err /\ aggregated w name err = true.

(** Every row [ProcessMsg] writes is valid for the store. *)
Definition persists_valid (w : World) (msg : string) : Prop :=
  forall d s sched p f row,
    ProcessMsg_start w msg = Enriching d s ->
    prun w msg d sched (mkPState s None) = Some p ->
    fx p = Some f -> In row (rows f) -> persistable row.


(** An undecodable payload reaches the failure stream as a record with its
    cause. *)
Definition malformed_gets_cause (w : World) (msg : string) : Prop :=
  forall err, json_Unmarshal w msg = inl err ->
    exists f val, ProcessMsg_start w msg = Early f /\ produced f = [val]
                  /\ is_dead_letter_record w val.

(** ** Sample worlds *)

Module Sample.

Definition dq : string := String (ascii_of_nat 34) "".

Definition field (k v : string) : string := dq ++ k ++ dq ++ ":" ++ dq ++ v ++ dq.

(** The encoding of a record whose strings need no escaping. *)
Definition encode (d : FullName) : string :=
  "{" ++ field "Name" (fn_Name d) ++ "," ++ field "Surname" (fn_Surname d)
  ++ "," ++ field "Patronymic" (fn_Patronymic d)
  ++ "," ++ field "Error" (fn_Error d) ++ "}".

Definition Ivan : FullName := mkFullName "Ivan" "Ivanov" "Ivanovich" "".
Definition Nameless : FullName := mkFullName "" "Ivanov" "Ivanovich" "".

Definition msg_Ivan : string := encode Ivan.
Definition msg_Nameless : string := encode Nameless.

(** A payload cut short. *)
Definition msg_broken : string := "{" ++ dq ++ "Name" ++ dq ++ ":".

Definition decode (msg : string) : string + FullName :=
  if String.eqb msg msg_Ivan then inr Ivan
  else if String.eqb msg msg_Nameless then inr Nameless
  else inl "unexpected end of JSON input".

Definition services (a g n : response) (url : string) : response :=
  if String.prefix "https://api.agify.io/" url then a
  else if String.prefix "https://api.genderize.io/" url then g
  else if String.prefix "https://api.nationalize.io/" url then n
  else Unreachable "no such host".

Definition world (a g n : response) : World :=
  mkWorld (services a g n) (fun _ => 0%Z) decode (fun d => inr (encode d))
    (fun _ => inr 1%Z) (fun _ => true).

Definition age_ok : response :=
  Object [("count", JNum (float_of_Z 52091)); ("name", JStr "Ivan");
          ("age", JNum (float_of_Z 49))].
Definition gender_ok : response :=
  Object [("count", JNum (float_of_Z 140107)); ("name", JStr "Ivan");
          ("gender", JStr "male"); ("probability", JNum (float_of_Z 1))].
Definition nation_ok : response :=
  Object [("count", JNum (float_of_Z 140201)); ("name", JStr "Ivan");
          ("country",
           JArr [JObj [("country_id", JStr "HR");
                       ("probability", JNum (mkFloat 3 (-4)))];
                 JObj [("country_id", JStr "RS");
                       ("probability", JNum (mkFloat 1 (-3)))]])].

(** A body without the expected field, as for a name the service does
    not know or a quota that ran out. *)
Definition no_field : response := Object [("error", JStr "Request limit reached")].
(** An unknown name: the ranked list is empty. *)
Definition nation_unknown : response :=
  Object [("count", JNum (float_of_Z 0)); ("name", JStr "Ivan");
          ("country", JArr [])].
Definition not_json : response :=
  BadBody "invalid character '<' looking for beginning of value".

(** Answers of the right shape whose values no rule of the store admits. *)
Definition age_zero : response := Object [("age", JNum (float_of_Z 0))].
Definition gender_blank : response := Object [("gender", JStr "")].
Definition nation_blank : response :=
  Object [("country", JArr [JObj [("country_id", JStr "")]])].

Definition all_ok : World := world age_ok gender_ok nation_ok.
Definition two_missing : World := world no_field no_field nation_ok.
Definition two_down : World := world not_json not_json nation_ok.
Definition empty_ranking : World := world age_ok gender_ok nation_unknown.
Definition blank_values : World := world age_zero gender_blank nation_blank.

(** The body [{"age":49,"count":1e999}] of the age service: the count
    does not fit a [float64], the decoder reports it and stores the rest. *)
Definition age_misfit : response :=
  Misfit "json: cannot unmarshal number 1e999 into Go value of type float64"
    [("age", JNum (float_of_Z 49)); ("count", JNull)].
Definition count_misfit : World := world age_misfit gender_ok nation_ok.


End Sample.

(** ** Vocabulary of the further properties *)

Definition capital (b : Z) : Prop := (65 <= b <= 90)%Z.

Definition ascii_letter (b : Z) : Prop :=
  (65 <= b <= 90)%Z \/ (97 <= b <= 122)%Z.

(** Exactly two bytes, each a capital A..Z. *)
Definition two_capitals (n : string) : Prop :=
  exists c1 c2,
    n = String c1 (String c2 "")
    /\ capital (Utf8.byte_val c1) /\ capital (Utf8.byte_val c2).

(** The name part of an entry, as the stream validator sees it. *)
Definition names_of (e : Entry) : FullName :=
  mkFullName (Name e) (Surname e) (Patronymic e) "".

(** The map [apiReq] leaves in [reqData] for an answer. *)
Definition decoded (r : response) : gomap :=
  match r with
  | Unreachable _ | BadBody _ => []
  | Misfit _ m | Object m => m
  end.

(** No goroutine has a panic ahead and the process runs. *)
Definition calm (s : EState) : Prop :=
  panics (g_age s) = false /\ panics (g_gender s) = false
  /\ panics (g_nation s) = false /\ crashed s = false.

(** What a run of [ProcessMsg] on [msg] can leave behind. *)
Inductive outcome (w : World) (msg : string) : Effects -> Prop :=
| outcome_early f :
    ProcessMsg_start w msg = Early f -> outcome w msg f
| outcome_run d s sched p f :
    ProcessMsg_start w msg = Enriching d s ->
    prun w msg d sched (mkPState s None) = Some p ->
    fx p = Some f ->
    outcome w msg f.

(** What the failure branches hand to the producer for [cause]. *)
Definition dead_letter_value (w : World) (msg : string) (d : FullName)
    (cause : string) : string :=
  match json_Marshal w (with_Error d cause) with
  | inl _ => msg
  | inr jsonData => jsonData
  end.

(** ** package handlers: the synchronous surface

    [Create], [Read], [Update], [Delete] and the resolvers of
    [created_entry] and [updated_entry].  What gin bound from the request
    is the argument; the store, the cache connection and the codec of
    [[]Entry] are a [Backend]; the cache is the map a handler finds and the
    map it leaves. *)

Definition quote : string := String (ascii_of_nat 34) "".

(** [%v] of an integer *)
Definition itoa (n : Z) : string := NilZero.string_of_int (Z.to_int n).

(** Go's [int], 64 bits wide, with its wrap-around. *)
Definition wrap_int (n : Z) : Z := ((n + 2 ^ 63) mod 2 ^ 64 - 2 ^ 63)%Z.

(** [uint8(n)] and [uint(n)] of an [int] keep the low bits. *)
Definition uint8_of_int (n : Z) : Z := (n mod 256)%Z.
Definition uint_of_int (n : Z) : Z := (n mod 2 ^ 64)%Z.

(** The value of a run of decimal digits, [None] on any other byte. *)
Fixpoint digits (acc : Z) (s : string) : option Z :=
  match s with
  | EmptyString => Some acc
  | String c rest =>
      let d := (Utf8.byte_val c - 48)%Z in
      if ((0 <=? d) && (d <=? 9))%Z then digits (10 * acc + d) rest else None
  end.

(** [strconv.Atoi], [None] for either of its errors: an optional sign, then
    one or more digits, and a value that fits an [int]. *)
Definition Atoi (s : string) : option Z :=
  let '(neg, body) :=
    match s with
    | String "-" rest => (true, rest)
    | String "+" rest => (false, rest)
    | _ => (false, s)
    end in
  if is_empty body then None
  else
    match digits 0 body with
    | None => None
    | Some n =>
        let v := if neg then (- n)%Z else n in
        if ((- 2 ^ 63 <=? v) && (v <=? 2 ^ 63 - 1))%Z then Some v else None
    end.

(** The body [gin.H] of an answer: one text field, or the entries. *)
Inductive Body :=
| Message (key text : string)
| EntriesBody (entries : list Entry).

Record Reply := mkReply { status : Z; body : Body }.

Inductive Write :=
| Created (row : Entry)
| Updated (e : Entry)
| Deleted (e : Entry).

Definition Cache := string -> option string.

Record Backend := mkBackend {
  (** [db.C.Create(&entry)]: the error, or the key the store assigns *)
  bk_Create : Entry -> string + Z;
  (** [db.C.Model(..).Where("id = ?", e.ID).Updates(..).Error]: the error,
      or whether a row has that key; when none has, the statement changes
      nothing and gorm reports no error *)
  bk_Updates : Entry -> string + bool;
  (** [db.C.First(&entry, "id = ?", id)] *)
  bk_First : Z -> string + Entry;
  (** [db.C.Unscoped().Delete(&entry).Error] *)
  bk_Delete : Entry -> option string;
  (** [Limit(size).Offset(offset)], with the [LIKE] filter or without,
      then [Find(&entries)] *)
  bk_Find : Z -> Z -> option (string * string) -> string + list Entry;
  (** whether the commands sent to Redis during the call succeed *)
  bk_redis_up : bool;
  (** [json.Marshal(entries)] *)
  bk_Marshal : list Entry -> string + string;
  (** [json.Unmarshal([]byte(cacheResult), &entries)]: the error and what
      it left in [entries] *)
  bk_Unmarshal : string -> error * list Entry
}.

(** [cRedis.Get(ctx, key).Result()] with [err == nil] *)
Definition cache_Get (b : Backend) (c : Cache) (key : string) : option string :=
  if bk_redis_up b then c key else None.

(** [cRedis.Set(ctx, key, value, 0)] *)
Definition cache_Set (b : Backend) (c : Cache) (key value : string) : Cache :=
  if bk_redis_up b
  then fun k => if String.eqb k key then Some value else c k
  else c.

(** [cRedis.FlushAll(ctx)]; a failure is only logged. *)
Definition cache_FlushAll (b : Backend) (c : Cache) : Cache :=
  if bk_redis_up b then fun _ => None else c.

Record Result := mkResult {
  reply : Reply;
  writes : list Write;
  cache_after : Cache
}.

Definition answer (code : Z) (key text : string) (c : Cache) : Result :=
  mkResult (mkReply code (Message key text)) [] c.

(** [func Create(c *gin.Context)]; [bound] is what [c.ShouldBind] gave. *)
Definition Create (b : Backend) (c : Cache) (bound : option Entry) : Result :=
  match bound with
  | None => answer 400 "error" "Invalid API query" c
  | Some newEntry =>
      match EntryM.IsValid newEntry with
      | Some err => answer 422 "error" ("Filling errors: " ++ err) c
      | None =>
          match bk_Create b newEntry with
          | inl _ => answer 500 "error" "Failed to create entry" c
          | inr id =>
              mkResult (mkReply 200 (Message "message" "Success"))
                [Created (set_ID newEntry id)] (cache_FlushAll b c)
          end
      end
  end.

Definition does_not_exist (id : Z) : string :=
  "Entry " ++ quote ++ itoa id ++ quote ++ " does not exist".

(** [func Update(c *gin.Context)] *)
Definition Update (b : Backend) (c : Cache) (bound : option Entry) : Result :=
  match bound with
  | None => answer 400 "error" "Invalid API query" c
  | Some updEntry =>
      match EntryM.IsValid updEntry with
      | Some err => answer 422 "error" ("Filling errors: " ++ err) c
      | None =>
          match bk_Updates b updEntry with
          | inl _ => answer 404 "message" (does_not_exist (ID updEntry)) c
          | inr found =>
              mkResult (mkReply 200 (Message "message" "Success"))
                (if found then [Updated updEntry] else [])
                (cache_FlushAll b c)
          end
      end
  end.

(** [func Delete(c *gin.Context)] *)
Definition Delete (b : Backend) (c : Cache) (bound : option Entry) : Result :=
  match bound with
  | None => answer 400 "error" "Invalid API query" c
  | Some delEntry =>
      match bk_First b (ID delEntry) with
      | inl _ => answer 404 "message" (does_not_exist (ID delEntry)) c
      | inr entry =>
          match bk_Delete b entry with
          | Some _ => answer 500 "error" "Failed to delete entry" c
          | None =>
              mkResult (mkReply 200 (Message "message" "Success"))
                [Deleted entry] (cache_FlushAll b c)
          end
      end
  end.

(** The query of [Read]: [size] and [page] may be absent, [col] and [data]
    are empty when absent. *)
Record Query := mkQuery {
  q_size : option string;
  q_page : option string;
  q_col : string;
  q_data : string
}.

(** [c.DefaultQuery(key, defaultValue)] *)
Definition DefaultQuery (v : option string) (defaultValue : string) : string :=
  match v with Some x => x | None => defaultValue end.

(** [fmt.Sprintf("entries:%v:%v:%s:%s", intSize, intPage, filterCol, filterData)] *)
Definition cacheKey (intSize intPage : Z) (filterCol filterData : string)
    : string :=
  "entries:" ++ itoa intSize ++ ":" ++ itoa intPage ++ ":" ++ filterCol
  ++ ":" ++ filterData.

(** [func Read(c *gin.Context)] *)
Definition Read (b : Backend) (c : Cache) (q : Query) : Result :=
  let pageSize := DefaultQuery (q_size q) "10" in
  let pageNum := DefaultQuery (q_page q) "1" in
  let filterCol := q_col q in
  let filterData := q_data q in
  if (negb (is_empty filterCol) && is_empty filterData)
     || (is_empty filterCol && negb (is_empty filterData))
  then answer 400 "error"
         ("Fill in both " ++ quote ++ "col" ++ quote ++ " and "
          ++ quote ++ "data" ++ quote) c
  else
    match Atoi pageSize with
    | None => answer 400 "error" "Invalid size parameter" c
    | Some intSize =>
        match Atoi pageNum with
        | None => answer 400 "error" "Invalid page parameter" c
        | Some intPage =>
            let offset := wrap_int (wrap_int (intPage - 1) * intSize) in
            let key := cacheKey intSize intPage filterCol filterData in
            match cache_Get b c key with
            | Some cacheResult =>
                let '(_, entries) := bk_Unmarshal b cacheResult in
                mkResult (mkReply 200 (EntriesBody entries)) [] c
            | None =>
                let filter :=
                  if negb (is_empty filterCol) && negb (is_empty filterData)
                  then Some (filterCol, filterData) else None in
                match bk_Find b intSize offset filter with
                | inl _ => answer 500 "error" "Request failed" c
                | inr entries =>
                    let jsonData :=
                      match bk_Marshal b entries with
                      | inr v => v
                      | inl _ => ""
                      end in
                    mkResult (mkReply 200 (EntriesBody entries)) []
                      (cache_Set b c key jsonData)
                end
            end
        end
    end.

(** *** The resolvers of the mutations *)

(** A value of [p.Args]. *)
Inductive gval := GInt (n : Z) | GStr (s : string).

Definition Args := list (string * gval).

Fixpoint arg (a : Args) (k : string) : option gval :=
  match a with
  | [] => None
  | (k', v) :: rest => if String.eqb k k' then Some v else arg rest k
  end.

(** [p.Args[k].(string)] and [p.Args[k].(int)], the flag dropped. *)
Definition arg_string (a : Args) (k : string) : string :=
  match arg a k with Some (GStr s) => s | _ => "" end.
Definition arg_int (a : Args) (k : string) : Z :=
  match arg a k with Some (GInt n) => n | _ => 0%Z end.

(** What a resolver returns: the entry or the error. *)
Record Resolved := mkResolved {
  value : string + Entry;
  res_writes : list Write;
  res_cache : Cache
}.

(** [Resolve] of [created_entry] *)
Definition created_entry (b : Backend) (c : Cache) (a : Args) : Resolved :=
  let newEntry :=
    mkEntry 0 (arg_string a "name") (arg_string a "surname")
      (arg_string a "patronymic") (uint8_of_int (arg_int a "age"))
      (arg_string a "gender") (arg_string a "nationality") in
  match EntryM.IsValid newEntry with
  | Some err => mkResolved (inl err) [] c
  | None =>
      match bk_Create b newEntry with
      | inl err => mkResolved (inl err) [] c
      | inr id =>
          mkResolved (inr (set_ID newEntry id)) [Created (set_ID newEntry id)]
            (cache_FlushAll b c)
      end
  end.

(** [Resolve] of [updated_entry] *)
Definition updated_entry (b : Backend) (c : Cache) (a : Args) : Resolved :=
  let updEntry :=
    mkEntry (uint_of_int (arg_int a "id")) (arg_string a "name")
      (arg_string a "surname") (arg_string a "patronymic")
      (uint8_of_int (arg_int a "age")) (arg_string a "gender")
      (arg_string a "nationality") in
  match EntryM.IsValid updEntry with
  | Some err => mkResolved (inl err) [] c
  | None =>
      match bk_Updates b updEntry with
      | inl err => mkResolved (inl err) [] c
      | inr found =>
          mkResolved (inr updEntry) (if found then [Updated updEntry] else [])
            (cache_FlushAll b c)
      end
  end.

(** The entry a write carries. *)
Definition written (x : Write) : Entry :=
  match x with Created e => e | Updated e => e | Deleted e => e end.

(** A backend to run the handlers on. *)
Module SampleApi.

Definition Ivan : Entry := mkEntry 0 "Ivan" "Ivanov" "Ivanovich" 49 "male" "HR".

Definition stored : list Entry := [set_ID Ivan 1].

Definition backend : Backend :=
  mkBackend (fun _ => inr 1%Z) (fun _ => inr true)
    (fun id => inr (set_ID Ivan id))
    (fun _ => None) (fun _ _ _ => inr stored) true
    (fun _ => inr "[ivan]")
    (fun v => if String.eqb v "[ivan]" then (None, stored)
              else (Some "unexpected end of JSON input", [])).

Definition empty : Cache := fun _ => None.



End SampleApi.

(** * Properties *)

Example IsValid_Ivan : FullNameM.IsValid Sample.Ivan = "".
Proof. reflexivity. Qed.

Example IsValid_digit :
  FullNameM.IsValid (mkFullName "1Ivan" "" "" "")
  = "name contains invalid characters, surname cannot be empty".
Proof. vm_compute. reflexivity. Qed.

Example runes_cyr : Utf8.runes "Яя" = [1071%Z; 1103%Z].
Proof. vm_compute. reflexivity. Qed.

Example Enrich_all_ok :
  erun [TAge; TAge; TGender; TGender; TNation; TNation; TCloser; TMain]
    (Enrich Sample.all_ok (new_entry Sample.Ivan) "Ivan")
  = Some (mkEState (mkEntry 0 "Ivan" "Ivanov" "Ivanovich" 49 "male" "HR")
            [] true 0 [] [] [] (Some None) false).
Proof. vm_compute. reflexivity. Qed.

(** ** The stream validator *)

Section Validator.

Lemma Join_nil sep : Join [] sep = "".
Proof. reflexivity. Qed.

(** The test [len(errContent) == 0] only spares a call of [Join]. *)
Lemma IsValid_is_Join e :
  FullNameM.IsValid e = Join (FullNameM.errContent e) ", ".
Proof.
  unfold FullNameM.IsValid.
  destruct (FullNameM.errContent e); reflexivity.
Qed.

Lemma is_empty_true v : is_empty v = true -> v = "".
Proof. destruct v; [reflexivity | discriminate]. Qed.

Lemma is_empty_false_length v : is_empty v = false -> (1 <= String.length v)%nat.
Proof. destruct v; [discriminate | simpl; lia]. Qed.

Lemma name_case_first v :
  FullNameM.name_case v = firstn 1 (violated_rules "name" v).
Proof.
  unfold FullNameM.name_case, violated_rules.
  destruct (is_empty v) eqn:E.
  - apply is_empty_true in E; subst; reflexivity.
  - destruct (String.length v <? 2)%nat; [reflexivity|].
    destruct (50 <? String.length v)%nat; [reflexivity|].
    destruct (Regexp.namePattern v); reflexivity.
Qed.

Lemma surname_case_first v :
  FullNameM.surname_case v = firstn 1 (violated_rules "surname" v).
Proof.
  unfold FullNameM.surname_case, violated_rules.
  destruct (is_empty v) eqn:E.
  - apply is_empty_true in E; subst; reflexivity.
  - destruct (String.length v <? 2)%nat; [reflexivity|].
    destruct (50 <? String.length v)%nat; [reflexivity|].
    destruct (Regexp.namePattern v); reflexivity.
Qed.

Lemma namePattern_spec v :
  Regexp.namePattern v = true <->
  Utf8.runes v <> []
  /\ Forall (fun r => Regexp.in_class Regexp.name_class r = true) (Utf8.runes v).
Proof.
  unfold Regexp.namePattern, Regexp.match_plus.
  destruct (Utf8.runes v) as [|r rs] eqn:E.
  - split; [discriminate | intros [H _]; congruence].
  - rewrite forallb_forall, Forall_forall. split.
    + intros H; split; [discriminate | exact H].
    + intros [_ H]; exact H.
Qed.

Lemma name_case_nil v : FullNameM.name_case v = [] <-> field_ok v.
Proof.
  unfold FullNameM.name_case, field_ok. rewrite <- namePattern_spec.
  destruct (is_empty v) eqn:E.
  - apply is_empty_true in E; subst. split; [discriminate|].
    simpl; intros [H _]; lia.
  - apply is_empty_false_length in E.
    destruct (String.length v <? 2)%nat eqn:E2.
    + apply Nat.ltb_lt in E2. split; [discriminate | intros [H _]; lia].
    + apply Nat.ltb_ge in E2.
      destruct (50 <? String.length v)%nat eqn:E3.
      * apply Nat.ltb_lt in E3. split; [discriminate | intros [H _]; lia].
      * apply Nat.ltb_ge in E3.
        destruct (Regexp.namePattern v); simpl.
        -- split; [intros _; repeat split; lia | reflexivity].
        -- split; [discriminate | intros [_ H]; discriminate].
Qed.

Lemma surname_case_nil v : FullNameM.surname_case v = [] <-> field_ok v.
Proof.
  unfold FullNameM.surname_case, field_ok. rewrite <- namePattern_spec.
  destruct (is_empty v) eqn:E.
  - apply is_empty_true in E; subst. split; [discriminate|].
    simpl; intros [H _]; lia.
  - apply is_empty_false_length in E.
    destruct (String.length v <? 2)%nat eqn:E2.
    + apply Nat.ltb_lt in E2. split; [discriminate | intros [H _]; lia].
    + apply Nat.ltb_ge in E2.
      destruct (50 <? String.length v)%nat eqn:E3.
      * apply Nat.ltb_lt in E3. split; [discriminate | intros [H _]; lia].
      * apply Nat.ltb_ge in E3.
        destruct (Regexp.namePattern v); simpl.
        -- split; [intros _; repeat split; lia | reflexivity].
        -- split; [discriminate | intros [_ H]; discriminate].
Qed.

(** Each switch yields nothing or one of its four messages. *)
Lemma name_case_shape v :
  FullNameM.name_case v = [] \/
  exists c m, FullNameM.name_case v = [String c m].
Proof.
  unfold FullNameM.name_case.
  repeat match goal with
         | |- context [if ?b then _ else _] => destruct b
         end; auto; right; eexists _, _; reflexivity.
Qed.

Lemma surname_case_shape v :
  FullNameM.surname_case v = [] \/
  exists c m, FullNameM.surname_case v = [String c m].
Proof.
  unfold FullNameM.surname_case.
  repeat match goal with
         | |- context [if ?b then _ else _] => destruct b
         end; auto; right; eexists _, _; reflexivity.
Qed.

(** The cause is empty exactly when no switch fired. *)
Lemma IsValid_empty_iff e :
  FullNameM.IsValid e = "" <-> FullNameM.errContent e = [].
Proof.
  rewrite IsValid_is_Join. unfold FullNameM.errContent.
  destruct (name_case_shape (fn_Name e)) as [-> | (c & m & ->)];
    destruct (surname_case_shape (fn_Surname e)) as [-> | (c' & m' & ->)];
    simpl; split; intros H; try reflexivity; discriminate.
Qed.

(** What the validator accepts, in terms of bytes and runes. *)
Lemma IsValid_accepts_iff e :
  FullNameM.IsValid e = "" <-> field_ok (fn_Name e) /\ field_ok (fn_Surname e).
Proof.
  rewrite IsValid_empty_iff. unfold FullNameM.errContent.
  rewrite <- name_case_nil, <- surname_case_nil.
  split.
  - intros H. apply app_eq_nil in H. exact H.
  - intros [-> ->]. reflexivity.
Qed.

End Validator.

(** C7, as amended: for each of name and surname the validator reports the
    first violated rule only (empty, too short, too long, invalid
    characters), and the cause is these at most two messages, name first,
    joined with a comma and a space. *)
Theorem C7_IsValid_first_violation_per_field :
  forall e, FullNameM.IsValid e = Join (first_violations e) ", ".
Proof.
  intros e. rewrite IsValid_is_Join.
  unfold FullNameM.errContent, first_violations.
  rewrite name_case_first, surname_case_first. reflexivity.
Qed.

(** C7 as written fails: a one-digit name is both too short and not
    alphabetic, and only the first of the two rules is reported. *)
Lemma C7_not_all_violations :
  let e := mkFullName "1" "Ivanov" "" "" in
  all_violations e = ["name is too short"; "name contains invalid characters"]
  /\ FullNameM.IsValid e = "name is too short"
  /\ FullNameM.IsValid e <> Join (all_violations e) ", ".
Proof.
  vm_compute. repeat split. discriminate.
Qed.

(** C8, evaluated where the code departs from it: lengths are counted in
    bytes, so a name of one Cyrillic letter is accepted and a name of 26
    Cyrillic letters is too long; and the letters ё and Ё lie outside а-я and
    А-Я, so Фёдор is refused. *)
Theorem C8_IsValid_counts_bytes :
  (Utf8.RuneCount "Я" = 1%nat
   /\ FullNameM.IsValid (mkFullName "Я" "Ivanov" "" "") = "")
  /\ (Utf8.RuneCount "Абвгдежзийклмнопрстуфхцчшщ" = 26%nat
      /\ FullNameM.IsValid (mkFullName "Абвгдежзийклмнопрстуфхцчшщ" "Ivanov" "" "")
         = "name is too long")
  /\ (Utf8.runes "Фёдор" = [1060; 1105; 1076; 1086; 1088]%Z
      /\ FullNameM.IsValid (mkFullName "Фёдор" "Ivanov" "" "")
         = "name contains invalid characters").
Proof.
  vm_compute. repeat split.
Qed.

(** C9: a second invocation on the same record returns the cause the first
    one returned, also once the pipeline has written that cause into the
    record's [Error] field. *)
Theorem C9_IsValid_idempotent :
  forall e,
    let first := FullNameM.IsValid e in
    let second := FullNameM.IsValid e in
    second = first
    /\ FullNameM.IsValid (with_Error e first) = first.
Proof.
  intros e. split; reflexivity.
Qed.

(** ** Executions of [Enrich] *)

(** Case analysis of a successful step, down to the action that ran. *)
Ltac innermost x k :=
  lazymatch x with
  | context [match ?y with _ => _ end] => innermost y k
  | _ => k x
  end.

Ltac break_step H :=
  repeat (simpl in H;
          lazymatch type of H with
          | None = Some _ => discriminate H
          | Some _ = Some _ => injection H as H; subst
          | context [match ?x with _ => _ end] =>
              innermost x ltac:(fun y => destruct y eqn:?)
          end).

Ltac step_cases H :=
  unfold estep, act, shared_of in H; break_step H.

Section Executions.

(** Whatever every step preserves holds along every execution. *)
Lemma erun_invariant (I : EState -> Prop) :
  (forall t s s', estep t s = Some s' -> I s -> I s') ->
  forall sched s s', I s -> erun sched s = Some s' -> I s'.
Proof.
  intros Hstep. induction sched as [|t r IH]; intros s s' Hs Hrun; simpl in Hrun.
  - injection Hrun as <-. exact Hs.
  - destruct (estep t s) as [s1|] eqn:E; [|discriminate].
    eapply IH; [|exact Hrun]. eapply Hstep; eauto.
Qed.

Lemma prun_invariant w msg d (I : PState -> Prop) :
  (forall t p p', pstep w msg d t p = Some p' -> I p -> I p') ->
  forall sched p p', I p -> prun w msg d sched p = Some p' -> I p'.
Proof.
  intros Hstep. induction sched as [|t r IH]; intros p p' Hp Hrun; simpl in Hrun.
  - injection Hrun as <-. exact Hp.
  - destruct (pstep w msg d t p) as [p1|] eqn:E; [|discriminate].
    eapply IH; [|exact Hrun]. eapply Hstep; eauto.
Qed.

(** A step of [ProcessMsg] is its own last step or a step of [Enrich]. *)
Lemma pstep_cases w msg d t p p' :
  pstep w msg d t p = Some p' ->
  (exists r, t = TMain /\ ret (es p) = Some r /\ fx p = None
             /\ crashed (es p) = false
             /\ p' = mkPState (es p)
                       (Some (ProcessMsg_finish w msg d (entry (es p)) r)))
  \/ (estep t (es p) = Some (es p') /\ fx p' = fx p).
Proof.
  unfold pstep. intros H.
  destruct (crashed (es p)) eqn:Hc; [discriminate|].
  destruct t, (ret (es p)) as [r|] eqn:Hr, (fx p) eqn:Hf; simpl in H;
    try discriminate;
    try (destruct (estep _ (es p)) eqn:E; [|discriminate];
         simpl in H; injection H as <-; right; split; reflexivity).
  injection H as <-. left. exists r. repeat split; auto.
Qed.

(** *** The frame of [Enrich] *)

Lemma estep_frame e0 t s s' :
  estep t s = Some s' -> same_identity e0 (entry s) -> same_identity e0 (entry s').
Proof.
  intros H Hi. step_cases H; simpl; exact Hi.
Qed.

(** *** Accounting of the errors *)

Lemma Enrich_accounted w e name : accounted w name (Enrich w e name).
Proof.
  unfold accounted, sends_left, received, failures, age_failures,
    gender_failures, nationality_failures; simpl.
  rewrite !length_app. unfold errCh_cap. lia.
Qed.

Lemma estep_accounted w name t s s' :
  estep t s = Some s' -> accounted w name s -> accounted w name s'.
Proof.
  destruct s as [e ch cl tk ga gg gn r cr].
  unfold accounted, sends_left, received, errCh_cap. intros H [Hc Ha].
  step_cases H; simpl in *;
    repeat match goal with
           | E : (_ <? _)%nat = true |- _ => apply Nat.ltb_lt in E
           end;
    unfold errCh_cap in *; rewrite ?length_app in *; simpl in *; split; lia.
Qed.

(** *** The wait group *)

Lemma age_shaped w name : ends_ok (age w name) = true.
Proof.
  unfold age. destruct (apiReq w _) as [[err|] m];
    destruct (lookup m "age"); reflexivity.
Qed.

Lemma gender_shaped w name : ends_ok (gender w name) = true.
Proof.
  unfold gender. destruct (apiReq w _) as [[err|] m];
    destruct (lookup m "gender"); reflexivity.
Qed.

Lemma nationality_shaped w name : ends_ok (nationality w name) = true.
Proof.
  unfold nationality. destruct (apiReq w _) as [[err|] m];
    destruct (lookup m "country") as [| | | |[|first l]|]; try reflexivity;
    destruct first as [| | | | |fc]; try reflexivity;
    destruct (lookup fc "country_id"); reflexivity.
Qed.

Lemma ends_ok_nonempty {V} (p : list (action V)) : ends_ok p = true -> pending p = 1.
Proof. destruct p; [discriminate | reflexivity]. Qed.

Lemma Enrich_waited w e name : waited (Enrich w e name).
Proof.
  unfold waited, shaped; simpl.
  rewrite !ends_ok_nonempty
    by (apply age_shaped || apply gender_shaped || apply nationality_shaped).
  rewrite age_shaped, gender_shaped, nationality_shaped.
  repeat split; auto; discriminate.
Qed.

(** Popping an action that is not the last one leaves a goroutine that
    has still to return. *)
Lemma shaped_tail {V} (a : action V) q :
  shaped (a :: q) ->
  match a with
  | Done => q = []
  | Panic _ => True
  | _ => ends_ok q = true
  end.
Proof.
  intros [H|H]; [discriminate|].
  destruct a; simpl in H; auto.
  destruct q; [reflexivity | discriminate].
Qed.

Lemma estep_waited t s s' :
  estep t s = Some s' -> waited s -> waited s'.
Proof.
  destruct s as [e ch cl tk ga gg gn r cr].
  unfold waited. intros H (Ht & Ha & Hg & Hn & Hc & Hr).
  step_cases H; simpl in *;
    repeat match goal with
           | E : (_ =? _)%nat = true |- _ => apply Nat.eqb_eq in E
           | E : _ && _ = true |- _ => apply andb_prop in E; destruct E
           | S : shaped (_ :: _) |- _ =>
               let T := fresh in
               pose proof (shaped_tail _ _ S) as T; simpl in T; clear S
           end;
    subst; simpl in *;
    repeat match goal with
           | E : ends_ok ?q = true |- _ =>
               rewrite (ends_ok_nonempty q E) in *
           end;
    unfold shaped; repeat split; auto; try lia; try discriminate;
    try (intros; lia);
    intros Hcl; specialize (Hc Hcl); lia.
Qed.

(** *** What travels through the channel *)

Lemma Enrich_reported w e name : reported w name (Enrich w e name).
Proof.
  unfold reported, failures, age_failures, gender_failures,
    nationality_failures; simpl.
  repeat split; try discriminate.
  - apply incl_appl, incl_refl.
  - apply incl_appr, incl_appl, incl_refl.
  - apply incl_appr, incl_appr, incl_refl.
  - apply incl_nil_l.
Qed.

Lemma estep_reported w name t s s' :
  estep t s = Some s' -> reported w name s -> reported w name s'.
Proof.
  destruct s as [e ch cl tk ga gg gn r cr].
  unfold reported. intros H (Ha & Hg & Hn & Hch & Hr).
  step_cases H; simpl in *;
    repeat match goal with
           | I : incl (_ :: _) _ |- _ =>
               apply incl_cons_inv in I; destruct I
           end;
    repeat split; auto;
    try (apply incl_app; [assumption | apply incl_cons; [assumption | apply incl_nil_l]]);
    try (intros ? [=]; subst; assumption);
    try discriminate;
    apply incl_cons; assumption.
Qed.

(** *** The stores *)

Lemma Enrich_stored w e name : stored w name (Enrich w e name).
Proof.
  unfold stored, store_inv; simpl. repeat split; auto.
Qed.

Lemma estep_stored w name t s s' :
  estep t s = Some s' -> stored w name s -> stored w name s'.
Proof.
  destruct s as [e ch cl tk ga gg gn r cr].
  unfold stored, store_inv. intros H (Ha & Hg & Hn & Hp).
  step_cases H; simpl in *; repeat split; auto;
    intros x Hx;
    match goal with
    | I : forall _, stores ?full = _ -> _, E : stores ?full = [_] |- _ =>
        destruct (I _ E) as [I1 | [I1 I2]]; try discriminate;
        try (injection I1 as -> ->); auto
    end.
Qed.

(** *** Every execution is finite *)

Lemma estep_measure t s s' :
  estep t s = Some s' -> emeasure s' < emeasure s.
Proof.
  destruct s as [e ch cl tk ga gg gn r cr].
  unfold emeasure. intros H.
  step_cases H; simpl in *;
    repeat match goal with
           | E : _ && _ = true |- _ => apply andb_prop in E; destruct E
           | E : negb _ = true |- _ => apply negb_true_iff in E
           end;
    subst; simpl; try lia;
    repeat match goal with
           | |- context [if ?b then _ else _] => destruct b
           end; simpl; lia.
Qed.

Lemma pstep_measure w msg d t p p' :
  pstep w msg d t p = Some p' -> pmeasure p' < pmeasure p.
Proof.
  intros H. pose proof H as H'. apply pstep_cases in H.
  unfold pmeasure.
  destruct H as [(r & _ & Hr & Hf & Hc & ->) | [He Hf]].
  - simpl. rewrite Hc, Hf. lia.
  - assert (Hc : crashed (es p) = false).
    { unfold estep in He. destruct (crashed (es p)); [discriminate | reflexivity]. }
    apply estep_measure in He. rewrite Hf.
    unfold emeasure in *. rewrite Hc in *.
    destruct (crashed (es p')); lia.
Qed.

Lemma erun_bounded sched s s' :
  erun sched s = Some s' -> length sched + emeasure s' <= emeasure s.
Proof.
  revert s. induction sched as [|t r IH]; intros s H; simpl in H.
  - injection H as <-. simpl. lia.
  - destruct (estep t s) as [s1|] eqn:E; [|discriminate].
    apply estep_measure in E. apply IH in H. simpl. lia.
Qed.

Lemma prun_bounded w msg d sched p p' :
  prun w msg d sched p = Some p' -> length sched + pmeasure p' <= pmeasure p.
Proof.
  revert p. induction sched as [|t r IH]; intros p H; simpl in H.
  - injection H as <-. simpl. lia.
  - destruct (pstep w msg d t p) as [p1|] eqn:E; [|discriminate].
    apply pstep_measure in E. apply IH in H. simpl. lia.
Qed.

Lemma age_length w name : length (age w name) <= 4.
Proof.
  unfold age. destruct (apiReq w _) as [[err|] m];
    destruct (lookup m "age"); simpl; lia.
Qed.

Lemma gender_length w name : length (gender w name) <= 4.
Proof.
  unfold gender. destruct (apiReq w _) as [[err|] m];
    destruct (lookup m "gender"); simpl; lia.
Qed.

Lemma nationality_length w name : length (nationality w name) <= 5.
Proof.
  unfold nationality. destruct (apiReq w _) as [[err|] m];
    destruct (lookup m "country") as [| | | |[|first l]|]; simpl; try lia;
    destruct first as [| | | | |fc]; simpl; try lia;
    destruct (lookup fc "country_id"); simpl; lia.
Qed.

(** [Enrich] and its goroutines take at most 16 steps. *)
Lemma Enrich_measure w e name : emeasure (Enrich w e name) <= 16.
Proof.
  unfold emeasure; simpl.
  pose proof (age_length w name). pose proof (gender_length w name).
  pose proof (nationality_length w name). lia.
Qed.

(** *** Success means that every goroutine returned *)

Lemma pending_zero {V} (p : list (action V)) : pending p = 0 -> p = [].
Proof. destruct p; [reflexivity | discriminate]. Qed.

Lemma closed_all_returned s :
  waited s -> closed s = true ->
  g_age s = [] /\ g_gender s = [] /\ g_nation s = [].
Proof.
  intros (Ht & _ & _ & _ & Hc & _) Hcl. specialize (Hc Hcl).
  rewrite Hc in Ht.
  repeat split; apply pending_zero; lia.
Qed.

Lemma nil_return_sound w name s :
  waited s -> accounted w name s -> stored w name s ->
  ret s = None -> errCh s = [] -> closed s = true ->
  failures w name = [] /\ panics (nationality w name) = false
  /\ enriched w name (entry s).
Proof.
  intros Hw [_ Ha] (Sa & Sg & Sn & Sp) Hr Hch Hcl.
  destruct (closed_all_returned s Hw Hcl) as (Ea & Eg & En).
  unfold sends_left, received in Ha. rewrite Ea, Eg, En, Hr, Hch in Ha.
  simpl in Ha. rewrite En in Sp. simpl in Sp.
  split; [destruct (failures w name); [reflexivity | discriminate]|].
  split; [destruct (panics (nationality w name));
          [specialize (Sp eq_refl); discriminate | reflexivity]|].
  unfold store_inv, enriched in *. rewrite Ea in Sa. rewrite Eg in Sg. rewrite En in Sn.
  split; [|split]; intros v Hv;
    [destruct (Sa v Hv) as [?|[_ ?]] | destruct (Sg v Hv) as [?|[_ ?]]
    | destruct (Sn v Hv) as [?|[_ ?]]]; auto; discriminate.
Qed.

Lemma Enrich_einv w e name : einv w e name (Enrich w e name).
Proof.
  repeat split; try discriminate;
    try apply Enrich_accounted; try apply Enrich_waited;
    try apply Enrich_reported; try apply Enrich_stored.
Qed.

Lemma estep_ret_nil t s s' :
  estep t s = Some s' -> ret s' = Some None ->
  ret s = Some None
  \/ (ret s = None /\ errCh s = [] /\ closed s = true /\ entry s' = entry s).
Proof.
  intros H Hr.
  destruct s as [e ch cl tk ga gg gn r cr].
  step_cases H; simpl in *; subst; auto; try discriminate.
Qed.

(** After [Enrich] has returned nil nothing is left to run. *)
Lemma returned_nil_final t s :
  waited s -> ret s = Some None -> estep t s = None.
Proof.
  intros Hw Hr.
  assert (Hcl : closed s = true) by (apply Hw; exact Hr).
  destruct (closed_all_returned s Hw Hcl) as (Ea & Eg & En).
  unfold estep. destruct (crashed s); [reflexivity|].
  destruct t; rewrite ?Ea, ?Eg, ?En, ?Hr, ?Hcl; simpl;
    rewrite ?andb_false_r; reflexivity.
Qed.

Lemma estep_einv w e0 name t s s' :
  estep t s = Some s' -> einv w e0 name s -> einv w e0 name s'.
Proof.
  intros H (Ha & Hw & Hr & Hs & Hf & Hn).
  repeat apply conj;
    try solve [eapply estep_accounted; eauto | eapply estep_waited; eauto
              | eapply estep_reported; eauto | eapply estep_stored; eauto
              | eapply estep_frame; eauto].
  intros Hret.
  destruct (estep_ret_nil _ _ _ H Hret) as [Hp | (Hp & Hch & Hcl & He)].
  - rewrite (returned_nil_final t s Hw Hp) in H. discriminate.
  - rewrite He. eapply nil_return_sound; eauto.
Qed.

(** *** Progress: an execution ends only once [Enrich] has returned *)

Lemma eterminal_spec s :
  eterminal s = true <-> forall t, estep t s = None.
Proof.
  unfold eterminal. rewrite forallb_forall. split.
  - intros H t. specialize (H t).
    destruct (estep t s); [|reflexivity].
    assert (In t all_threads) by (destruct t; simpl; auto 10).
    specialize (H H0). discriminate.
  - intros H t _. rewrite H. reflexivity.
Qed.

Lemma pterminal_spec w msg d p :
  pterminal w msg d p = true <-> forall t, pstep w msg d t p = None.
Proof.
  unfold pterminal. rewrite forallb_forall. split.
  - intros H t. specialize (H t).
    destruct (pstep w msg d t p); [|reflexivity].
    assert (In t all_threads) by (destruct t; simpl; auto 10).
    specialize (H H0). discriminate.
  - intros H t _. rewrite H. reflexivity.
Qed.

(** A goroutine that has not returned can move, unless it sits at a send
    with the buffer full. *)
Lemma act_enabled {V} (store : Entry -> V -> Entry) cl p sh :
  p <> [] -> (head_is_send p = true -> length (sh_errCh sh) < errCh_cap) ->
  act store cl p sh <> None.
Proof.
  intros Hp Hs. destruct p as [|[m|v|m|] q]; [congruence| | | |];
    simpl; try discriminate.
  destruct cl; [discriminate|].
  specialize (Hs eq_refl). apply Nat.ltb_lt in Hs. rewrite Hs. discriminate.
Qed.

Lemma estep_progress s :
  waited s -> crashed s = false -> ret s = None ->
  exists t, estep t s <> None.
Proof.
  intros (Ht & _ & _ & _ & _ & _) Hc Hr.
  destruct (errCh s) as [|err rest] eqn:Hch.
  2:{ exists TMain. unfold estep. rewrite Hc, Hr, Hch. discriminate. }
  destruct (closed s) eqn:Hcl.
  { exists TMain. unfold estep. rewrite Hc, Hr, Hch, Hcl. discriminate. }
  destruct (tasks s) as [|k] eqn:Hk.
  { exists TCloser. unfold estep. rewrite Hc, Hk, Hcl. discriminate. }
  assert (Hen : forall V (store : Entry -> V -> Entry) (p : list (action V)),
             p <> [] -> act store (closed s) p (shared_of s) <> None).
  { intros V store p Hp. apply act_enabled; [exact Hp|].
    intros _. simpl. rewrite Hch. unfold errCh_cap. simpl. lia. }
  destruct (g_age s) as [|a qa] eqn:Ea.
  2:{ exists TAge. unfold estep. rewrite Hc, Ea.
      specialize (Hen _ set_Age (a :: qa)).
      destruct (act set_Age (closed s) (a :: qa) (shared_of s)) as [[? ?]|];
        [discriminate | exfalso; apply Hen; [discriminate | reflexivity]]. }
  destruct (g_gender s) as [|a qa] eqn:Eg.
  2:{ exists TGender. unfold estep. rewrite Hc, Eg.
      specialize (Hen _ set_Gender (a :: qa)).
      destruct (act set_Gender (closed s) (a :: qa) (shared_of s)) as [[? ?]|];
        [discriminate | exfalso; apply Hen; [discriminate | reflexivity]]. }
  destruct (g_nation s) as [|a qa] eqn:En.
  2:{ exists TNation. unfold estep. rewrite Hc, En.
      specialize (Hen _ set_Nationality (a :: qa)).
      destruct (act set_Nationality (closed s) (a :: qa) (shared_of s)) as [[? ?]|];
        [discriminate | exfalso; apply Hen; [discriminate | reflexivity]]. }
  simpl in Ht. discriminate.
Qed.

Lemma pterminal_returned w msg d p :
  waited (es p) -> pterminal w msg d p = true -> crashed (es p) = false ->
  exists r f, ret (es p) = Some r /\ fx p = Some f.
Proof.
  intros Hw Ht Hc. rewrite pterminal_spec in Ht.
  destruct (ret (es p)) as [r|] eqn:Hr.
  - destruct (fx p) as [f|] eqn:Hf; [eauto|].
    specialize (Ht TMain). unfold pstep in Ht.
    rewrite Hc, Hr, Hf in Ht. discriminate.
  - destruct (estep_progress _ Hw Hc Hr) as [t Hst].
    specialize (Ht t). unfold pstep in Ht. rewrite Hc, Hr in Ht.
    destruct (estep t (es p)); [|congruence].
    destruct t; discriminate.
Qed.

(** *** Executions of [ProcessMsg] *)

Lemma start_Enriching w msg d s :
  ProcessMsg_start w msg = Enriching d s ->
  json_Unmarshal w msg = inr d /\ FullNameM.IsValid d = ""
  /\ s = Enrich w (new_entry d) (fn_Name d).
Proof.
  unfold ProcessMsg_start. intros H.
  destruct (json_Unmarshal w msg) as [err|d']; [discriminate|].
  destruct (String.eqb (FullNameM.IsValid d') "") eqn:E; simpl in H;
    [|discriminate].
  injection H as <- <-. apply String.eqb_eq in E. auto.
Qed.

Lemma estep_ret_stable t s s' r :
  estep t s = Some s' -> ret s = Some r -> ret s' = Some r.
Proof.
  destruct s as [e ch cl tk ga gg gn r0 cr]. intros H Hr; simpl in Hr; subst.
  step_cases H; reflexivity.
Qed.

Lemma start_pinv w msg d :
  pinv w msg d (new_entry d) (fn_Name d)
    (mkPState (Enrich w (new_entry d) (fn_Name d)) None).
Proof.
  split; [apply Enrich_einv | intros f; discriminate].
Qed.

Lemma pstep_pinv w msg d e0 name t p p' :
  pstep w msg d t p = Some p' ->
  pinv w msg d e0 name p -> pinv w msg d e0 name p'.
Proof.
  intros H [He Hf]. apply pstep_cases in H.
  destruct H as [(r & _ & Hr & Hfx & Hc & ->) | [Hs Hfx]].
  - split; [exact He|]. intros f Hf'. simpl in Hf'. injection Hf' as <-.
    exists r, (entry (es p)).
    split; [exact Hr|]. split; [reflexivity|]. intros ->.
    split; [apply He; exact Hr | apply He].
  - split; [eapply estep_einv; eauto|].
    intros f Hf'. rewrite Hfx in Hf'.
    destruct (Hf f Hf') as (r & e & Hr & Hff & Hn).
    exists r, e. repeat split; auto; try (apply Hn; assumption).
    eapply estep_ret_stable; eauto.
Qed.

Lemma prun_pinv w msg d sched p :
  prun w msg d sched (mkPState (Enrich w (new_entry d) (fn_Name d)) None)
  = Some p ->
  pinv w msg d (new_entry d) (fn_Name d) p.
Proof.
  apply prun_invariant; [|apply start_pinv].
  intros t q q'. apply pstep_pinv.
Qed.

Lemma erun_einv w e name sched s :
  erun sched (Enrich w e name) = Some s -> einv w e name s.
Proof.
  apply erun_invariant; [|apply Enrich_einv].
  intros t q q'. apply estep_einv.
Qed.

(** What the failure branches leave behind. *)
Lemma dead_letter_outcome w msg d cause :
  failure_outcome (dead_letter w msg d cause).
Proof.
  unfold dead_letter, failure_outcome.
  destruct (json_Marshal w _); split; reflexivity.
Qed.


End Executions.

(** C10: along every execution of [Enrich], whether it ends in nil, in a
    failure or not at all, the receiver keeps its ID, Name, Surname and
    Patronymic; only Age, Gender and Nationality are written. *)
Theorem C10_Enrich_frame :
  forall w e name sched s,
    erun sched (Enrich w e name) = Some s ->
    ID (entry s) = ID e /\ Name (entry s) = Name e
    /\ Surname (entry s) = Surname e /\ Patronymic (entry s) = Patronymic e.
Proof.
  intros w e name sched s H.
  apply (erun_invariant (fun q => same_identity e (entry q))) in H.
  - exact H.
  - intros t q q'. apply estep_frame.
  - repeat split.
Qed.

Lemma C10_Enrich_frame_witness :
  exists s,
    erun [TAge; TGender; TAge; TNation; TGender; TNation; TCloser; TMain]
      (Enrich Sample.all_ok (mkEntry 7 "Ivan" "Ivanov" "Ivanovich" 0 "" "") "Ivan")
    = Some s
    /\ ret s = Some None
    /\ (Age (entry s), Gender (entry s), Nationality (entry s)) = (49%Z, "male", "HR")
    /\ ID (entry s) = 7%Z /\ Name (entry s) = "Ivan"
    /\ Surname (entry s) = "Ivanov" /\ Patronymic (entry s) = "Ivanovich".
Proof.
  eexists. split; [vm_compute; reflexivity|].
  split; [reflexivity|]. split; [reflexivity|].
  apply (C10_Enrich_frame Sample.all_ok
           (mkEntry 7 "Ivan" "Ivanov" "Ivanovich" 0 "" "") "Ivan"
           [TAge; TGender; TAge; TNation; TGender; TNation; TCloser; TMain]).
  vm_compute. reflexivity.
Defined.

(** ** Enrichment failures *)

(** C1, as amended: when one or more lookups fail, [Enrich] never returns
    nil; the failure it returns is one single error among those the failing
    lookups reported (the first it receives), not an aggregate; the run of
    [ProcessMsg] writes no row and hands exactly one value to the failure
    stream; and an execution that ends without a crash of the process ends
    after [Enrich] returned that failure.  Every execution has at most 17
    steps. *)
Theorem C1_Enrich_returns_one_reported_failure :
  forall w msg d s sched p,
    ProcessMsg_start w msg = Enriching d s ->
    failures w (fn_Name d) <> [] ->
    prun w msg d sched (mkPState s None) = Some p ->
    ret (es p) <> Some None
    /\ (forall err, ret (es p) = Some (Some err) ->
                    In err (failures w (fn_Name d)))
    /\ (forall f, fx p = Some f -> rows f = [] /\ length (produced f) = 1)
    /\ (pterminal w msg d p = true -> crashed (es p) = false ->
        exists err f, ret (es p) = Some (Some err) /\ fx p = Some f)
    /\ length sched <= 17.
Proof.
  intros w msg d s sched p Hstart Hfail Hrun.
  apply start_Enriching in Hstart. destruct Hstart as (_ & _ & ->).
  pose proof (prun_pinv _ _ _ _ _ Hrun) as [He Hf].
  destruct He as (Ha & Hw & Hr & Hs & Hi & Hn).
  assert (Hnil : ret (es p) <> Some None).
  { intros E. apply Hn in E. destruct E as [E _]. contradiction. }
  split; [exact Hnil|].
  split; [apply Hr|].
  split.
  { intros f Hfx. destruct (Hf f Hfx) as (r & e & Hret & -> & _).
    destruct r as [m|]; [|exfalso; apply Hnil; exact Hret].
    destruct (dead_letter_outcome w msg d ("Failed to enrich data from API: " ++ m))
      as [H1 H2].
    split; assumption. }
  split.
  { intros Ht Hc.
    destruct (pterminal_returned _ _ _ _ Hw Ht Hc) as (r & f & Hret & Hfx).
    destruct r as [m|]; [eauto | exfalso; apply Hnil; exact Hret]. }
  apply prun_bounded in Hrun.
  pose proof (age_length w (fn_Name d)).
  pose proof (gender_length w (fn_Name d)).
  pose proof (nationality_length w (fn_Name d)).
  unfold pmeasure in Hrun at 2. simpl in Hrun. lia.
Qed.

Lemma C1_Enrich_returns_one_reported_failure_witness :
  exists p,
    prun Sample.two_missing Sample.msg_Ivan Sample.Ivan
      [TGender; TMain; TMain; TAge; TAge; TAge; TGender; TGender;
       TNation; TNation; TCloser]
      (mkPState (Enrich Sample.two_missing (new_entry Sample.Ivan) "Ivan") None)
    = Some p
    /\ ret (es p) = Some (Some "gender data not found")
    /\ pterminal Sample.two_missing Sample.msg_Ivan Sample.Ivan p = true
    /\ (ret (es p) <> Some None
        /\ (forall err, ret (es p) = Some (Some err) ->
                        In err (failures Sample.two_missing "Ivan"))
        /\ (forall f, fx p = Some f -> rows f = [] /\ length (produced f) = 1)
        /\ (pterminal Sample.two_missing Sample.msg_Ivan Sample.Ivan p = true ->
            crashed (es p) = false ->
            exists err f, ret (es p) = Some (Some err) /\ fx p = Some f)
        /\ 11 <= 17).
Proof.
  eexists. split; [vm_compute; reflexivity|].
  split; [reflexivity|]. split; [vm_compute; reflexivity|].
  apply (C1_Enrich_returns_one_reported_failure Sample.two_missing
           Sample.msg_Ivan Sample.Ivan
           (Enrich Sample.two_missing (new_entry Sample.Ivan) "Ivan")
           [TGender; TMain; TMain; TAge; TAge; TAge; TGender; TGender;
            TNation; TNation; TCloser]).
  - vm_compute. reflexivity.
  - vm_compute. discriminate.
  - vm_compute. reflexivity.
Defined.

(** C1 as written fails: with the age and the gender lookups both failing,
    [Enrich] can return the error of the age lookup alone, which says
    nothing of the gender lookup. *)
Lemma C1_not_aggregated :
  age_failures Sample.two_missing "Ivan" = ["age data not found"]
  /\ gender_failures Sample.two_missing "Ivan" = ["gender data not found"]
  /\ (exists s,
        erun [TAge; TMain]
          (Enrich Sample.two_missing (new_entry Sample.Ivan) "Ivan") = Some s
        /\ ret s = Some (Some "age data not found"))
  /\ aggregated Sample.two_missing "Ivan" "age data not found" = false
  /\ ~ Enrich_aggregates Sample.two_missing (new_entry Sample.Ivan) "Ivan".
Proof.
  split; [vm_compute; reflexivity|]. split; [vm_compute; reflexivity|].
  split; [eexists; split; vm_compute; reflexivity|].
  split; [vm_compute; reflexivity|].
  intros H.
  destruct (H ltac:(vm_compute; discriminate) [TAge; TMain] _ _
              ltac:(vm_compute; reflexivity) eq_refl) as (err & Herr & Hagg).
  injection Herr as <-. vm_compute in Hagg. discriminate.
Qed.

(** ** What [ProcessMsg] persists *)

Section Answers.

Lemma uint8_range w f : (0 <= uint8_of_float64 w f <= 255)%Z.
Proof.
  unfold uint8_of_float64.
  destruct ((0 <=? trunc f)%Z && (trunc f <=? 255)%Z) eqn:E.
  - apply andb_prop in E. destruct E as [E1 E2].
    apply Z.leb_le in E1. apply Z.leb_le in E2. lia.
  - pose proof (Z.mod_pos_bound (uint8_overflow w f) 256). lia.
Qed.

(** A lookup that reports nothing found its field, of the expected type. *)
Lemma age_no_failure w name :
  sends (age w name) = [] ->
  exists m f,
    http_Get w ("https://api.agify.io/?name=" ++ name) = Object m
    /\ lookup m "age" = JNum f
    /\ stores (age w name) = [uint8_of_float64 w f].
Proof.
  unfold age, apiReq.
  destruct (http_Get w _) as [err|err|err m|m]; try discriminate;
    try (destruct (lookup [] "age"); discriminate).
  destruct (lookup m "age") eqn:E; try discriminate.
  intros _. eauto.
Qed.

Lemma gender_no_failure w name :
  sends (gender w name) = [] ->
  exists m v,
    http_Get w ("https://api.genderize.io/?name=" ++ name) = Object m
    /\ lookup m "gender" = JStr v
    /\ stores (gender w name) = [v].
Proof.
  unfold gender, apiReq.
  destruct (http_Get w _) as [err|err|err m|m]; try discriminate;
    try (destruct (lookup [] "gender"); discriminate).
  destruct (lookup m "gender") eqn:E; try discriminate.
  intros _. eauto.
Qed.

Lemma nationality_no_failure w name :
  sends (nationality w name) = [] ->
  exists m fc rest v,
    http_Get w ("https://api.nationalize.io/?name=" ++ name) = Object m
    /\ lookup m "country" = JArr (JObj fc :: rest)
    /\ lookup fc "country_id" = JStr v
    /\ stores (nationality w name) = [v].
Proof.
  unfold nationality, apiReq.
  destruct (http_Get w _) as [err|err|err m|m]; try discriminate;
    try (destruct (lookup [] "country") as [| | | |[|? ?]|]; discriminate).
  destruct (lookup m "country") as [| | | |[|first rest]|] eqn:E;
    try discriminate.
  destruct first as [| | | | |fc]; try discriminate.
  destruct (lookup fc "country_id") eqn:E'; try discriminate.
  intros _. eauto 10.
Qed.

Lemma failures_nil w name :
  failures w name = [] ->
  sends (age w name) = [] /\ sends (gender w name) = []
  /\ sends (nationality w name) = [].
Proof.
  unfold failures, age_failures, gender_failures, nationality_failures.
  intros H. apply app_eq_nil in H. destruct H as [H1 H].
  apply app_eq_nil in H. tauto.
Qed.

(** A row is written only at the end of a run in which [Enrich] returned
    nil and the store accepted the entry. *)
Lemma rows_of_finish w msg d e r row :
  In row (rows (ProcessMsg_finish w msg d e r)) ->
  r = None /\ exists id, db_Create w e = inr id /\ row = set_ID e id.
Proof.
  unfold ProcessMsg_finish.
  assert (Hd : forall cause, ~ In row (rows (dead_letter w msg d cause))).
  { intros cause. destruct (dead_letter_outcome w msg d cause) as [_ ->].
    intros []. }
  destruct r as [m|]; [intros H; apply Hd in H; contradiction|].
  destruct (db_Create w e) as [m|id];
    [intros H; apply Hd in H; contradiction|].
  simpl. intros [<- | []]. eauto.
Qed.

End Answers.

(** What does hold of every entry [ProcessMsg] persists: it comes from a
    message whose name and surname passed the stream validator and keeps
    the message's name, surname and patronymic; its three other fields are
    what the services answered, unchecked: the age is the [uint8]
    conversion of the number under [age] (so some integer of 0..255), the
    gender is the string under [gender], whatever it is, and the nationality
    is the string under [country_id] of the first entry of [country],
    whatever it is.  No lookup reported a failure in that run. *)
Theorem C3_persisted_entry_is_as_answered :
  forall w msg d s sched p f row,
    ProcessMsg_start w msg = Enriching d s ->
    prun w msg d sched (mkPState s None) = Some p ->
    fx p = Some f -> In row (rows f) ->
    FullNameM.IsValid d = ""
    /\ (Name row = fn_Name d /\ Surname row = fn_Surname d
        /\ Patronymic row = fn_Patronymic d)
    /\ failures w (fn_Name d) = []
    /\ (exists m n,
          http_Get w ("https://api.agify.io/?name=" ++ fn_Name d) = Object m
          /\ lookup m "age" = JNum n
          /\ Age row = uint8_of_float64 w n /\ (0 <= Age row <= 255)%Z)
    /\ (exists m,
          http_Get w ("https://api.genderize.io/?name=" ++ fn_Name d) = Object m
          /\ lookup m "gender" = JStr (Gender row))
    /\ (exists m fc rest,
          http_Get w ("https://api.nationalize.io/?name=" ++ fn_Name d) = Object m
          /\ lookup m "country" = JArr (JObj fc :: rest)
          /\ lookup fc "country_id" = JStr (Nationality row)).
Proof.
  intros w msg d s sched p f row Hstart Hrun Hfx Hrow.
  apply start_Enriching in Hstart. destruct Hstart as (_ & Hvalid & ->).
  pose proof (prun_pinv _ _ _ _ _ Hrun) as [He Hf].
  destruct (Hf f Hfx) as (r & e & Hret & -> & Hnil).
  apply rows_of_finish in Hrow. destruct Hrow as (-> & id & _ & ->).
  destruct (Hnil eq_refl) as [(Ea & Eg & En) (_ & Hn & Hs & Hp)].
  destruct He as (_ & _ & _ & _ & _ & Hok).
  destruct (Hok Hret) as (Hfail & _ & _).
  destruct (failures_nil _ _ Hfail) as (Fa & Fg & Fn).
  destruct (age_no_failure _ _ Fa) as (ma & n & Ga & La & Sa).
  destruct (gender_no_failure _ _ Fg) as (mg & g & Gg & Lg & Sg).
  destruct (nationality_no_failure _ _ Fn) as (mn & fc & rest & c & Gn & Ln & Lc & Sn).
  simpl.
  split; [exact Hvalid|]. split; [auto|]. split; [exact Hfail|].
  rewrite (Ea _ Sa), (Eg _ Sg), (En _ Sn).
  split; [exists ma, n; repeat split; auto; apply uint8_range|].
  split; [exists mg; auto | exists mn, fc, rest; auto].
Qed.

Lemma C3_persisted_entry_is_as_answered_witness :
  exists p f row,
    prun Sample.all_ok Sample.msg_Ivan Sample.Ivan
      [TAge; TAge; TGender; TGender; TNation; TNation; TCloser; TMain; TMain]
      (mkPState (Enrich Sample.all_ok (new_entry Sample.Ivan) "Ivan") None)
    = Some p
    /\ fx p = Some f /\ rows f = [row]
    /\ row = mkEntry 1 "Ivan" "Ivanov" "Ivanovich" 49 "male" "HR"
    /\ FullNameM.IsValid Sample.Ivan = ""
    /\ (Name row = "Ivan" /\ Surname row = "Ivanov"
        /\ Patronymic row = "Ivanovich")
    /\ failures Sample.all_ok "Ivan" = []
    /\ (exists m n,
          http_Get Sample.all_ok ("https://api.agify.io/?name=" ++ "Ivan") = Object m
          /\ lookup m "age" = JNum n
          /\ Age row = uint8_of_float64 Sample.all_ok n /\ (0 <= Age row <= 255)%Z)
    /\ (exists m,
          http_Get Sample.all_ok ("https://api.genderize.io/?name=" ++ "Ivan") = Object m
          /\ lookup m "gender" = JStr (Gender row))
    /\ (exists m fc rest,
          http_Get Sample.all_ok ("https://api.nationalize.io/?name=" ++ "Ivan") = Object m
          /\ lookup m "country" = JArr (JObj fc :: rest)
          /\ lookup fc "country_id" = JStr (Nationality row)).
Proof.
  eexists _, _, _. split; [vm_compute; reflexivity|].
  split; [reflexivity|]. split; [reflexivity|]. split; [reflexivity|].
  eapply (C3_persisted_entry_is_as_answered Sample.all_ok Sample.msg_Ivan
            Sample.Ivan (Enrich Sample.all_ok (new_entry Sample.Ivan) "Ivan")
            [TAge; TAge; TGender; TGender; TNation; TNation; TCloser; TMain; TMain]).
  - vm_compute. reflexivity.
  - vm_compute. reflexivity.
  - reflexivity.
  - simpl. left. reflexivity.
Defined.

(** C3: the stream path does not keep the validity of what it persists.
    [ProcessMsg] stores the entry as [Enrich] left it and never calls
    [Entry.IsValid], the check [Create], [Update] and both resolvers make
    before they write.  With an age of 0, an empty gender and an empty
    country code in well-formed answers, [Enrich] returns nil and the row
    is written as it is: a row with an age outside 1..120 and an empty
    gender and nationality, which [Entry.IsValid] refuses. *)
Lemma C3_unchecked_answers_persisted :
  exists p f,
    ProcessMsg_start Sample.blank_values Sample.msg_Ivan
    = Enriching Sample.Ivan
        (Enrich Sample.blank_values (new_entry Sample.Ivan) "Ivan")
    /\ prun Sample.blank_values Sample.msg_Ivan Sample.Ivan
         [TAge; TAge; TGender; TGender; TNation; TNation; TCloser; TMain; TMain]
         (mkPState (Enrich Sample.blank_values (new_entry Sample.Ivan) "Ivan") None)
       = Some p
    /\ fx p = Some f
    /\ rows f = [mkEntry 1 "Ivan" "Ivanov" "Ivanovich" 0 "" ""]
    /\ ~ persistable (mkEntry 1 "Ivan" "Ivanov" "Ivanovich" 0 "" "")
    /\ EntryM.IsValid (mkEntry 1 "Ivan" "Ivanov" "Ivanovich" 0 "" "")
       = Some "age contains invalid data, gender cannot be empty, nationality cannot be empty"
    /\ ~ persists_valid Sample.blank_values Sample.msg_Ivan.
Proof.
  assert (Hbad : ~ persistable (mkEntry 1 "Ivan" "Ivanov" "Ivanovich" 0 "" "")).
  { intros (H & _). simpl in H. lia. }
  eexists _, _. split; [vm_compute; reflexivity|].
  split; [vm_compute; reflexivity|]. split; [reflexivity|].
  split; [reflexivity|]. split; [exact Hbad|].
  split; [vm_compute; reflexivity|].
  intros H. apply Hbad.
  eapply (H Sample.Ivan _
            [TAge; TAge; TGender; TGender; TNation; TNation; TCloser; TMain; TMain]).
  - vm_compute. reflexivity.
  - vm_compute. reflexivity.
  - reflexivity.
  - simpl. left. reflexivity.
Qed.

(** ** Terminal outcomes *)

Section Outcomes.





(** The panic of [nationality] can end the process before [ProcessMsg]
    has written a row or handed anything to the producer. *)
Lemma crash_leaves_no_outcome :
  ProcessMsg_start Sample.empty_ranking Sample.msg_Ivan
  = Enriching Sample.Ivan
      (Enrich Sample.empty_ranking (new_entry Sample.Ivan) "Ivan")
  /\ exists p,
       prun Sample.empty_ranking Sample.msg_Ivan Sample.Ivan [TNation; TNation]
         (mkPState (Enrich Sample.empty_ranking (new_entry Sample.Ivan) "Ivan")
            None)
       = Some p
       /\ pterminal Sample.empty_ranking Sample.msg_Ivan Sample.Ivan p = true
       /\ crashed (es p) = true
       /\ fx p = None.
Proof.
  split; [vm_compute; reflexivity|].
  eexists. split; [vm_compute; reflexivity|].
  split; [vm_compute; reflexivity|]. split; reflexivity.
Qed.

End Outcomes.




(** C5: a payload that cannot be decoded is routed to the failure stream,
    but not as a record with its cause: what [ProcessMsg] hands to the
    producer is the payload itself, byte for byte, while the cause is only
    logged; the value is therefore not a decodable record with a populated
    [Error], as the values of the failure stream are meant to be. *)
Theorem C5_malformed_payload_is_forwarded_unchanged :
  forall w msg err,
    json_Unmarshal w msg = inl err ->
    ProcessMsg_start w msg = Early (Produce w msg)
    /\ produced (Produce w msg) = [msg]
    /\ rows (Produce w msg) = []
    /\ ~ is_dead_letter_record w msg.
Proof.
  intros w msg err H. unfold ProcessMsg_start. rewrite H.
  repeat split. intros (d & Hd & _). congruence.
Qed.

Lemma C5_malformed_payload_is_forwarded_unchanged_witness :
  json_Unmarshal Sample.all_ok Sample.msg_broken
  = inl "unexpected end of JSON input"
  /\ ProcessMsg_start Sample.all_ok Sample.msg_broken
     = Early (Produce Sample.all_ok Sample.msg_broken)
  /\ produced (Produce Sample.all_ok Sample.msg_broken) = [Sample.msg_broken]
  /\ rows (Produce Sample.all_ok Sample.msg_broken) = []
  /\ ~ is_dead_letter_record Sample.all_ok Sample.msg_broken.
Proof.
  split; [vm_compute; reflexivity|].
  apply (C5_malformed_payload_is_forwarded_unchanged Sample.all_ok
           Sample.msg_broken "unexpected end of JSON input").
  vm_compute. reflexivity.
Defined.

(** The truncated payload is published as it came, and it decodes to no
    record at all. *)
Lemma C5_no_cause_attached :
  ProcessMsg_start Sample.all_ok Sample.msg_broken
  = Early (mkEffects [Sample.msg_broken] [Sample.msg_broken] [] 0)
  /\ ~ malformed_gets_cause Sample.all_ok Sample.msg_broken.
Proof.
  split; [vm_compute; reflexivity|].
  intros H.
  destruct (H "unexpected end of JSON input" ltac:(vm_compute; reflexivity))
    as (f & val & Hs & Hp & (d & Hd & _)).
  assert (E : ProcessMsg_start Sample.all_ok Sample.msg_broken
              = Early (Produce Sample.all_ok Sample.msg_broken))
    by (vm_compute; reflexivity).
  rewrite E in Hs. injection Hs as <-. simpl in Hp. injection Hp as <-.
  vm_compute in Hd. discriminate.
Qed.

(** ** Blocked goroutines and the crash *)

Section Blocking.

Lemma act_none_blocked {V} (store : Entry -> V -> Entry) cl p sh :
  act store cl p sh = None -> p <> [] ->
  head_is_send p = true /\ (length (sh_errCh sh) <? errCh_cap)%nat = false.
Proof.
  intros H Hp. destruct p as [|[m|v|m|] q]; [congruence| | | |];
    simpl in H; try discriminate.
  destruct cl; [discriminate|].
  destruct (length (sh_errCh sh) <? errCh_cap)%nat; [discriminate|].
  split; reflexivity.
Qed.

(** In an execution that has ended without a crash, a lookup goroutine
    that has not returned is blocked at a send. *)
Lemma terminal_blocked s :
  eterminal s = true -> crashed s = false ->
  (g_age s <> [] -> blocked s (g_age s) = true)
  /\ (g_gender s <> [] -> blocked s (g_gender s) = true)
  /\ (g_nation s <> [] -> blocked s (g_nation s) = true).
Proof.
  intros Ht Hc. rewrite eterminal_spec in Ht.
  pose proof (Ht TAge) as Ha. pose proof (Ht TGender) as Hg.
  pose proof (Ht TNation) as Hn.
  unfold estep in Ha, Hg, Hn. rewrite Hc in Ha, Hg, Hn.
  unfold blocked.
  repeat split; intros Hp.
  - destruct (act set_Age (closed s) (g_age s) (shared_of s)) as [[? ?]|] eqn:E;
      [discriminate|].
    destruct (act_none_blocked _ _ _ _ E Hp) as [-> H]. simpl in H.
    rewrite H. reflexivity.
  - destruct (act set_Gender (closed s) (g_gender s) (shared_of s))
      as [[? ?]|] eqn:E; [discriminate|].
    destruct (act_none_blocked _ _ _ _ E Hp) as [-> H]. simpl in H.
    rewrite H. reflexivity.
  - destruct (act set_Nationality (closed s) (g_nation s) (shared_of s))
      as [[? ?]|] eqn:E; [discriminate|].
    destruct (act_none_blocked _ _ _ _ E Hp) as [-> H]. simpl in H.
    rewrite H. reflexivity.
Qed.

Lemma blocked_full {V} s (p : list (action V)) :
  blocked s p = true -> 1 <= length (sends p) /\ 1 <= length (errCh s).
Proof.
  unfold blocked, errCh_cap. intros H. apply andb_prop in H.
  destruct H as [H1 H2]. apply negb_true_iff, Nat.ltb_ge in H2.
  destruct p as [|[]]; try discriminate. simpl. lia.
Qed.

Lemma panics_nonempty {V} (p : list (action V)) : panics p = true -> p <> [].
Proof. destruct p; [discriminate | discriminate]. Qed.

(** The index into [countryList] panics exactly when the answer holds no
    first country. *)
Lemma nationality_panics_iff w name :
  panics (nationality w name) = true <->
  forall first rest,
    lookup (snd (apiReq w ("https://api.nationalize.io/?name=" ++ name)))
      "country" <> JArr (first :: rest).
Proof.
  unfold nationality.
  destruct (apiReq w _) as [err m]; simpl.
  destruct (lookup m "country") as [| | | |[|first rest]|] eqn:E.
  1-5,7: split; [intros _ ? ?; discriminate
                | intros _; destruct err; reflexivity].
  split.
  - intros H. exfalso. revert H.
    destruct first as [| | | | |fc]; destruct err; simpl;
      try discriminate;
      destruct (lookup fc "country_id"); discriminate.
  - intros H. exfalso. apply (H first rest). reflexivity.
Qed.

End Blocking.

(** C2, evaluated where the code departs from it: [errCh] holds one error and
    [Enrich] takes one more out of it, so as soon as the lookups have three
    or more errors to report (two lookups failing on an undecodable body
    report two each), some send never completes.  Along every execution the
    channel is then never closed; [Enrich] returns without having waited for
    the lookups; and an execution that ends without a crash leaves a lookup
    goroutine blocked for ever at its send. *)
Theorem C2_third_error_blocks_for_ever :
  forall w e name sched s,
    3 <= length (failures w name) ->
    erun sched (Enrich w e name) = Some s ->
    1 <= sends_left s
    /\ closed s = false
    /\ 1 <= tasks s
    /\ ret s <> Some None
    /\ (eterminal s = true -> crashed s = false ->
        blocked s (g_age s) || blocked s (g_gender s) || blocked s (g_nation s)
        = true).
Proof.
  intros w e name sched s Hthree Hrun.
  destruct (erun_einv _ _ _ _ _ Hrun) as ((Hcap & Hacc) & Hw & _).
  assert (Hleft : 1 <= sends_left s).
  { unfold received, errCh_cap in *. destruct (ret s) as [[?|]|]; lia. }
  assert (Hcl : closed s = false).
  { destruct (closed s) eqn:E; [|reflexivity].
    destruct (closed_all_returned s Hw E) as (Ea & Eg & En).
    unfold sends_left in Hleft. rewrite Ea, Eg, En in Hleft. simpl in Hleft. lia. }
  split; [exact Hleft|]. split; [exact Hcl|].
  split.
  { destruct Hw as (Ht & _). rewrite Ht. unfold sends_left in Hleft.
    destruct (g_age s); [|simpl; lia]. destruct (g_gender s); [|simpl; lia].
    destruct (g_nation s); simpl in *; lia. }
  split.
  { intros E. apply Hw in E. congruence. }
  intros Ht Hc.
  destruct (terminal_blocked s Ht Hc) as (Ba & Bg & Bn).
  unfold sends_left in Hleft.
  destruct (g_age s) as [|a qa] eqn:Ea.
  2:{ rewrite Ba by discriminate. reflexivity. }
  destruct (g_gender s) as [|g qg] eqn:Eg.
  2:{ rewrite Bg by discriminate. rewrite orb_true_r. reflexivity. }
  destruct (g_nation s) as [|n qn] eqn:En.
  2:{ rewrite Bn by discriminate. apply orb_true_r. }
  simpl in Hleft. lia.
Qed.

Lemma C2_third_error_blocks_for_ever_witness :
  length (failures Sample.two_down "Ivan") = 4
  /\ exists s,
       erun [TAge; TMain; TAge; TAge; TAge; TNation; TNation]
         (Enrich Sample.two_down (new_entry Sample.Ivan) "Ivan") = Some s
       /\ eterminal s = true
       /\ ret s = Some (Some "invalid character '<' looking for beginning of value")
       /\ head_is_send (g_gender s) = true
       /\ (1 <= sends_left s
           /\ closed s = false
           /\ 1 <= tasks s
           /\ ret s <> Some None
           /\ (eterminal s = true -> crashed s = false ->
               blocked s (g_age s) || blocked s (g_gender s)
               || blocked s (g_nation s) = true)).
Proof.
  split; [vm_compute; reflexivity|].
  eexists. split; [vm_compute; reflexivity|].
  split; [vm_compute; reflexivity|]. split; [reflexivity|].
  split; [reflexivity|].
  apply (C2_third_error_blocks_for_ever Sample.two_down
           (new_entry Sample.Ivan) "Ivan"
           [TAge; TMain; TAge; TAge; TAge; TNation; TNation]).
  - vm_compute. lia.
  - vm_compute. reflexivity.
Defined.

(** C6, evaluated where the code departs from it: when the answer of the
    nationality service holds no first country (an empty or missing
    [country] list), the goroutine sends its error and goes on to index the
    list.  It never returns: every execution that ends, ends with the
    process crashed or with that goroutine stuck at its send, [Nationality]
    is never written, and when no other error is around the crash is
    certain. *)
Theorem C6_empty_ranking_panics :
  forall w e name sched s,
    panics (nationality w name) = true ->
    erun sched (Enrich w e name) = Some s ->
    g_nation s <> []
    /\ ret s <> Some None
    /\ (eterminal s = true ->
        crashed s = true \/ blocked s (g_nation s) = true)
    /\ (eterminal s = true -> length (failures w name) <= 1 ->
        crashed s = true).
Proof.
  intros w e name sched s Hp Hrun.
  destruct (erun_einv _ _ _ _ _ Hrun)
    as ((Hcap & Hacc) & Hw & _ & (_ & _ & _ & Hpan) & _ & Hnil).
  pose proof (panics_nonempty _ (Hpan Hp)) as Hne.
  split; [exact Hne|].
  split.
  { intros E. apply Hnil in E. destruct E as (_ & E & _). congruence. }
  assert (Hb : eterminal s = true -> crashed s = false ->
               blocked s (g_nation s) = true).
  { intros Ht Hc. apply (terminal_blocked s Ht Hc). exact Hne. }
  split.
  - intros Ht. destruct (crashed s) eqn:Hc; [left; reflexivity|].
    right. apply Hb; auto.
  - intros Ht Hone. destruct (crashed s) eqn:Hc; [reflexivity|].
    apply blocked_full in Hb; auto. unfold sends_left in Hacc. lia.
Qed.

Lemma C6_empty_ranking_panics_witness :
  nationality Sample.empty_ranking "Ivan"
  = [Send "country data not found"; Panic "runtime error: index out of range [0] with length 0"]
  /\ exists s,
       erun [TNation; TNation]
         (Enrich Sample.empty_ranking (new_entry Sample.Ivan) "Ivan") = Some s
       /\ eterminal s = true
       /\ ret s = None
       /\ crashed s = true
       /\ (g_nation s <> []
           /\ ret s <> Some None
           /\ (eterminal s = true ->
               crashed s = true \/ blocked s (g_nation s) = true)
           /\ (eterminal s = true ->
               length (failures Sample.empty_ranking "Ivan") <= 1 ->
               crashed s = true)).
Proof.
  split; [vm_compute; reflexivity|].
  eexists. split; [vm_compute; reflexivity|].
  split; [vm_compute; reflexivity|]. split; [reflexivity|].
  split; [reflexivity|].
  apply (C6_empty_ranking_panics Sample.empty_ranking
           (new_entry Sample.Ivan) "Ivan" [TNation; TNation]).
  - vm_compute. reflexivity.
  - vm_compute. reflexivity.
Defined.

(** * Further properties *)

(** ** Runes of accepted text *)

Section Runes.

Local Open Scope Z_scope.

Lemma lor_ge_l x y : 0 <= y -> x <= Z.lor x y.
Proof.
  intros Hy. pose proof (Zbitwise.Z.sub_lor_l_same_l y x) as H.
  assert (0 <= Z.land y (Z.lnot x)) by (apply Z.land_nonneg; auto).
  lia.
Qed.

Lemma lor_ge_r x y : 0 <= x -> y <= Z.lor x y.
Proof. intros Hx. rewrite Z.lor_comm. apply lor_ge_l. exact Hx. Qed.

Lemma land_low_bits a k m :
  0 <= k -> m = Z.ones k -> Z.land a m = a mod 2 ^ k.
Proof. intros Hk ->. apply Z.land_ones. exact Hk. Qed.

#[local] Opaque Z.shiftl Z.land Z.lor.

Lemma between_spec lo hi b :
  Utf8.between lo hi b = true <-> lo <= b <= hi.
Proof.
  unfold Utf8.between. rewrite andb_true_iff, !Z.leb_le. tauto.
Qed.

Lemma second_range_high b0 :
  128 <= fst (Utf8.second_range b0).
Proof.
  unfold Utf8.second_range.
  repeat match goal with |- context [if ?c then _ else _] => destruct c end;
    simpl; lia.
Qed.

(** The shapes of a decoded rune: an ASCII byte, the error rune of width 1,
    or a sequence of two to four bytes, all of them 128 or more, whose rune
    is 128 or more (2048 or more from three bytes on). *)
Lemma DecodeRune_cases b0 rest r w :
  Utf8.DecodeRune b0 rest = (r, w) ->
  (b0 < 128 /\ r = b0 /\ w = 1%nat)
  \/ (128 <= b0 /\ r = Utf8.RuneError /\ w = 1%nat)
  \/ (128 <= b0 /\ 128 <= r /\ w = 2%nat
      /\ exists b1 tl, rest = b1 :: tl /\ 128 <= b1)
  \/ (128 <= b0 /\ 2048 <= r /\ w = 3%nat
      /\ exists b1 b2 tl, rest = b1 :: b2 :: tl /\ 128 <= b1 /\ 128 <= b2)
  \/ (128 <= b0 /\ 2048 <= r /\ w = 4%nat
      /\ exists b1 b2 b3 tl,
           rest = b1 :: b2 :: b3 :: tl /\ 128 <= b1 /\ 128 <= b2 /\ 128 <= b3).
Proof.
  unfold Utf8.DecodeRune.
  destruct (b0 <? 128) eqn:E0.
  { apply Z.ltb_lt in E0. intros [= <- <-]. left. auto. }
  apply Z.ltb_ge in E0.
  assert (Herr : forall r' w', (Utf8.RuneError, 1%nat) = (r', w') ->
            128 <= b0 /\ r' = Utf8.RuneError /\ w' = 1%nat)
    by (intros ? ? [= <- <-]; auto).
  destruct (Utf8.between 194 223 b0) eqn:E2.
  { apply between_spec in E2.
    destruct rest as [|b1 tl]; [intros H; right; left; apply Herr, H|].
    destruct (Utf8.is_cont b1) eqn:C1; [|intros H; right; left; apply Herr, H].
    apply between_spec in C1. intros [= <- <-].
    right; right; left.
    split; [lia|]. split; [|split; [reflexivity | exists b1, tl; split; [reflexivity | lia]]].
    etransitivity; [|apply lor_ge_l].
    - rewrite Z.shiftl_mul_pow2 by lia.
      rewrite (land_low_bits b0 5 31) by (reflexivity || lia).
      change (2 ^ 5) with 32. change (2 ^ 6) with 64.
      Z.div_mod_to_equations. lia.
    - apply Z.land_nonneg. right. lia. }
  destruct (Utf8.between 224 239 b0) eqn:E3.
  { apply between_spec in E3.
    destruct rest as [|b1 [|b2 tl]]; try (intros H; right; left; apply Herr, H).
    pose proof (second_range_high b0) as Hlo.
    destruct (Utf8.second_range b0) as [lo hi] eqn:Er. simpl in Hlo.
    destruct (Utf8.between lo hi b1 && Utf8.is_cont b2) eqn:C;
      [|intros H; right; left; apply Herr, H].
    apply andb_prop in C. destruct C as [C1 C2].
    apply between_spec in C1. apply between_spec in C2.
    intros [= <- <-]. right; right; right; left.
    split; [lia|].
    split; [|split; [reflexivity
                    | exists b1, b2, tl; split; [reflexivity | lia]]].
    assert (Hn : 0 <= Z.land b2 63) by (apply Z.land_nonneg; right; lia).
    assert (Hm : 0 <= Z.shiftl (Z.land b1 63) 6).
    { apply Z.shiftl_nonneg, Z.land_nonneg. right. lia. }
    destruct (Z.eq_dec b0 224) as [->|Hb].
    - unfold Utf8.second_range in Er. simpl in Er. injection Er as <- <-.
      etransitivity; [|apply lor_ge_r; vm_compute; discriminate].
      etransitivity; [|apply lor_ge_l; exact Hn].
      rewrite Z.shiftl_mul_pow2 by lia.
      rewrite (land_low_bits b1 6 63) by (reflexivity || lia).
      change (2 ^ 6) with 64. Z.div_mod_to_equations. lia.
    - etransitivity; [|apply lor_ge_l; apply Z.lor_nonneg; auto].
      rewrite Z.shiftl_mul_pow2 by lia.
      rewrite (land_low_bits b0 4 15) by (reflexivity || lia).
      change (2 ^ 4) with 16. change (2 ^ 12) with 4096.
      Z.div_mod_to_equations. lia. }
  destruct (Utf8.between 240 244 b0) eqn:E4;
    [|intros H; right; left; apply Herr, H].
  apply between_spec in E4.
  destruct rest as [|b1 [|b2 [|b3 tl]]];
    try (intros H; right; left; apply Herr, H).
  pose proof (second_range_high b0) as Hlo.
  destruct (Utf8.second_range b0) as [lo hi] eqn:Er. simpl in Hlo.
  destruct (Utf8.between lo hi b1 && Utf8.is_cont b2 && Utf8.is_cont b3) eqn:C;
    [|intros H; right; left; apply Herr, H].
  apply andb_prop in C. destruct C as [C C3].
  apply andb_prop in C. destruct C as [C1 C2].
  apply between_spec in C1. apply between_spec in C2. apply between_spec in C3.
  intros [= <- <-]. right; right; right; right.
  split; [lia|].
  split; [|split; [reflexivity
                  | exists b1, b2, b3, tl; split; [reflexivity | lia]]].
  assert (H3 : 0 <= Z.land b3 63) by (apply Z.land_nonneg; right; lia).
  assert (H2 : 0 <= Z.shiftl (Z.land b2 63) 6).
  { apply Z.shiftl_nonneg, Z.land_nonneg. right. lia. }
  assert (H1 : 0 <= Z.shiftl (Z.land b1 63) 12).
  { apply Z.shiftl_nonneg, Z.land_nonneg. right. lia. }
  assert (H23 : 0 <= Z.lor (Z.shiftl (Z.land b2 63) 6) (Z.land b3 63))
    by (apply Z.lor_nonneg; auto).
  destruct (Z.eq_dec b0 240) as [->|Hb].
  - unfold Utf8.second_range in Er. simpl in Er. injection Er as <- <-.
    etransitivity; [|apply lor_ge_r; vm_compute; discriminate].
    etransitivity; [|apply lor_ge_l; exact H23].
    rewrite Z.shiftl_mul_pow2 by lia.
    rewrite (land_low_bits b1 6 63) by (reflexivity || lia).
    change (2 ^ 6) with 64. change (2 ^ 12) with 4096.
    Z.div_mod_to_equations. lia.
  - etransitivity; [|apply lor_ge_l; apply Z.lor_nonneg; auto].
    rewrite Z.shiftl_mul_pow2 by lia.
    rewrite (land_low_bits b0 3 7) by (reflexivity || lia).
    change (2 ^ 3) with 8. change (2 ^ 18) with 262144.
    Z.div_mod_to_equations. lia.
Qed.

#[local] Transparent Z.shiftl Z.land Z.lor.

Ltac decode_cases E :=
  apply DecodeRune_cases in E;
  destruct E as [(Hb & -> & ->)
                | [(Hb & -> & ->)
                  | [(Hb & Hr & -> & b1 & tl & -> & H1)
                    | [(Hb & Hr & -> & b1 & b2 & tl & -> & H1 & H2)
                      | (Hb & Hr & -> & b1 & b2 & b3 & tl & -> & H1 & H2 & H3)]]]];
  simpl skipn; simpl length.

(** A byte below 128 is never taken for part of a longer sequence. *)
Lemma runes_keep_ascii fuel bs b :
  (length bs <= fuel)%nat -> In b bs -> b < 128 ->
  In b (Utf8.runes_fuel fuel bs).
Proof.
  revert bs. induction fuel as [|k IH]; intros bs Hlen Hin Hb128.
  - destruct bs; [contradiction | simpl in Hlen; lia].
  - destruct bs as [|b0 rest]; [contradiction|]. simpl in Hlen. simpl.
    destruct (Utf8.DecodeRune b0 rest) as [r w] eqn:E. decode_cases E;
      destruct Hin as [<- | Hin]; try lia;
      try (left; reflexivity);
      right; apply IH; simpl in *; try lia;
      repeat (destruct Hin as [<- | Hin]; [lia|]); exact Hin.
Qed.

(** Text whose runes are all below 2048 takes one or two bytes a rune. *)
Lemma runes_width fuel bs :
  (length bs <= fuel)%nat ->
  Forall (fun r => r < 2048) (Utf8.runes_fuel fuel bs) ->
  (length (Utf8.runes_fuel fuel bs) <= length bs
   <= 2 * length (Utf8.runes_fuel fuel bs))%nat.
Proof.
  revert bs. induction fuel as [|k IH]; intros bs Hlen Hall.
  - destruct bs; simpl in *; lia.
  - destruct bs as [|b0 rest]; [simpl; lia|]. simpl in Hlen. simpl in *.
    destruct (Utf8.DecodeRune b0 rest) as [r w] eqn:E.
    inversion Hall as [|? ? Hr0 Hall']; subst.
    decode_cases E; simpl in Hall'; simpl;
      try (unfold Utf8.RuneError in Hr0; lia);
      try lia;
      match type of Hall' with
      | Forall _ (Utf8.runes_fuel k ?l) =>
          assert (Hl : (length l <= k)%nat) by (simpl in *; lia);
          specialize (IH l Hl Hall'); simpl in *; lia
      end.
Qed.

(** Text whose runes are all below 128 is its own list of runes. *)
Lemma runes_of_ascii fuel bs :
  (length bs <= fuel)%nat ->
  Forall (fun r => r < 128) (Utf8.runes_fuel fuel bs) ->
  Utf8.runes_fuel fuel bs = bs.
Proof.
  revert bs. induction fuel as [|k IH]; intros bs Hlen Hall.
  - destruct bs; [reflexivity | simpl in Hlen; lia].
  - destruct bs as [|b0 rest]; [reflexivity|]. simpl in Hlen. simpl in *.
    destruct (Utf8.DecodeRune b0 rest) as [r w] eqn:E.
    inversion Hall as [|? ? Hr0 Hall']; subst.
    decode_cases E; simpl in Hall';
      try (unfold Utf8.RuneError in Hr0; lia); try lia.
    f_equal. apply IH; [lia | exact Hall'].
Qed.

Lemma bytes_of_length v : length (Utf8.bytes_of v) = String.length v.
Proof.
  unfold Utf8.bytes_of. rewrite length_map.
  induction v; simpl; auto.
Qed.

Lemma name_class_bound r :
  Regexp.in_class Regexp.name_class r = true ->
  r < 2048 /\ (r < 128 -> ascii_letter r).
Proof.
  unfold Regexp.in_class, Regexp.name_class, ascii_letter. simpl.
  rewrite !orb_true_iff, !between_spec. lia.
Qed.

Lemma upper_class_spec r :
  Regexp.in_class Regexp.upper_class r = true <-> capital r.
Proof.
  unfold Regexp.in_class, Regexp.upper_class, capital. simpl.
  rewrite orb_false_r, between_spec. tauto.
Qed.

End Runes.

(** ** The two validators *)

Section Validators.

Lemma field_ok_letters v :
  field_ok v ->
  (1 <= Utf8.RuneCount v <= 50)%nat
  /\ (String.length v <= 2 * Utf8.RuneCount v)%nat
  /\ (forall b, In b (Utf8.bytes_of v) -> (b < 128)%Z -> ascii_letter b).
Proof.
  intros (Hlen & Hne & Hall).
  unfold Utf8.RuneCount, Utf8.runes in *.
  set (bs := Utf8.bytes_of v) in *.
  assert (Hw : Forall (fun r => (r < 2048)%Z)
                 (Utf8.runes_fuel (length bs) bs)).
  { eapply Forall_impl; [|exact Hall]. intros r Hr.
    apply name_class_bound in Hr. tauto. }
  pose proof (runes_width (length bs) bs (le_n _) Hw) as [H1 H2].
  pose proof (bytes_of_length v) as Hb. fold bs in Hb.
  split.
  - split; [|lia].
    destruct (Utf8.runes_fuel (length bs) bs); [congruence | simpl; lia].
  - split; [lia|].
    intros b Hin Hb128.
    pose proof (runes_keep_ascii (length bs) bs b (le_n _) Hin Hb128) as Hr.
    rewrite Forall_forall in Hall. apply Hall in Hr.
    apply name_class_bound in Hr. tauto.
Qed.

Lemma byte_val_range c : (0 <= Utf8.byte_val c < 256)%Z.
Proof.
  unfold Utf8.byte_val.
  pose proof (N_ascii_bounded c) as H. lia.
Qed.

Lemma runes_two_ascii c1 c2 :
  (Utf8.byte_val c1 < 128)%Z -> (Utf8.byte_val c2 < 128)%Z ->
  Utf8.runes (String c1 (String c2 "")) = [Utf8.byte_val c1; Utf8.byte_val c2].
Proof.
  intros H1 H2. unfold Utf8.runes, Utf8.bytes_of. simpl.
  unfold Utf8.DecodeRune.
  apply Z.ltb_lt in H1. apply Z.ltb_lt in H2. rewrite H1. simpl.
  rewrite H2. reflexivity.
Qed.

(** [^[A-Z]{2}$] matches exactly the two-byte strings of capitals. *)
Lemma countryPattern_spec n :
  Regexp.countryPattern n = true <-> two_capitals n.
Proof.
  unfold Regexp.countryPattern, Regexp.match_two. split.
  - destruct (Utf8.runes n) as [|r1 [|r2 [|r3 rs]]] eqn:E; try discriminate.
    intros H. apply andb_prop in H. destruct H as [H1 H2].
    apply upper_class_spec in H1. apply upper_class_spec in H2.
    unfold Utf8.runes in E.
    assert (Hb : Utf8.runes_fuel (length (Utf8.bytes_of n)) (Utf8.bytes_of n)
                 = Utf8.bytes_of n).
    { apply runes_of_ascii; [lia|]. rewrite E.
      unfold capital in *. repeat constructor; lia. }
    rewrite Hb in E. unfold Utf8.bytes_of in E.
    destruct n as [|c1 [|c2 [|c3 rest]]]; simpl in E; try discriminate.
    injection E as <- <-. exists c1, c2. auto.
  - intros (c1 & c2 & -> & H1 & H2).
    rewrite runes_two_ascii by (unfold capital in *; lia).
    apply andb_true_intro. split; apply upper_class_spec; assumption.
Qed.

Lemma age_case_nil a : EntryM.age_case a = [] <-> (1 <= a <= 120)%Z.
Proof.
  unfold EntryM.age_case.
  destruct ((a <? 1)%Z || (120 <? a)%Z) eqn:E.
  - apply orb_prop in E. rewrite !Z.ltb_lt in E.
    split; [discriminate | lia].
  - apply orb_false_elim in E. rewrite !Z.ltb_ge in E.
    split; [lia | reflexivity].
Qed.

Lemma gender_case_nil g :
  EntryM.gender_case g = [] <-> (g = "male" \/ g = "female").
Proof.
  unfold EntryM.gender_case.
  destruct (is_empty g) eqn:E.
  - apply is_empty_true in E. subst.
    split; [discriminate | intros [H | H]; discriminate].
  - destruct (String.eqb g "male") eqn:E1.
    + apply String.eqb_eq in E1. simpl. split; auto.
    + destruct (String.eqb g "female") eqn:E2; simpl.
      * apply String.eqb_eq in E2. split; auto.
      * apply String.eqb_neq in E1. apply String.eqb_neq in E2.
        split; [discriminate | intros [H | H]; contradiction].
Qed.

Lemma nationality_case_nil n :
  EntryM.nationality_case n = [] <-> two_capitals n.
Proof.
  unfold EntryM.nationality_case. rewrite <- countryPattern_spec.
  destruct (is_empty n) eqn:E.
  - apply is_empty_true in E. subst. split; discriminate.
  - destruct (Regexp.countryPattern n); simpl; split; auto; discriminate.
Qed.

Lemma Entry_IsValid_nil_iff e :
  EntryM.IsValid e = None <-> EntryM.errContent e = [].
Proof.
  unfold EntryM.IsValid.
  destruct (EntryM.errContent e); simpl; split; auto; discriminate.
Qed.

Lemma Join_cons x l sep :
  Join (x :: l) sep
  = x ++ match l with [] => "" | _ => sep ++ Join l sep end.
Proof.
  unfold Join. destruct l; simpl; [|reflexivity].
  induction x; simpl; congruence.
Qed.

Lemma append_assoc (a b c : string) : (a ++ b) ++ c = a ++ (b ++ c).
Proof. induction a; simpl; congruence. Qed.

Lemma Join_app l1 l2 sep :
  l1 <> [] ->
  Join (l1 ++ l2) sep
  = Join l1 sep ++ match l2 with [] => "" | _ => sep ++ Join l2 sep end.
Proof.
  induction l1 as [|x [|y l] IH]; [congruence| |]; intros _.
  - simpl app. rewrite Join_cons. reflexivity.
  - change ((x :: y :: l) ++ l2)%list with (x :: ((y :: l) ++ l2)%list).
    rewrite Join_cons. rewrite (Join_cons x (y :: l)).
    simpl app at 1. rewrite IH by discriminate.
    rewrite !append_assoc. reflexivity.
Qed.

End Validators.

(** X1: [Entry.IsValid] returns nil exactly for the entries whose name and
    surname are 2 to 50 bytes of letters a-z, A-Z, а-я, А-Я, whose age is
    1 to 120, whose gender is male or female and whose nationality is
    exactly two bytes, both capitals A to Z. *)
Theorem X1_Entry_IsValid_accepts_iff :
  forall e,
    EntryM.IsValid e = None <->
    field_ok (Name e) /\ field_ok (Surname e)
    /\ (1 <= Age e <= 120)%Z
    /\ (Gender e = "male" \/ Gender e = "female")
    /\ two_capitals (Nationality e).
Proof.
  intros e. rewrite Entry_IsValid_nil_iff. unfold EntryM.errContent.
  rewrite <- name_case_nil, <- surname_case_nil, <- age_case_nil,
    <- gender_case_nil, <- nationality_case_nil.
  split.
  - intros H.
    repeat (apply app_eq_nil in H; destruct H as [? H]). auto.
  - intros (-> & -> & -> & -> & ->). reflexivity.
Qed.

(** X2: the two validators check name and surname alike.  An entry
    [Entry.IsValid] accepts has a name part [FullName.IsValid] accepts, and
    when [FullName.IsValid] rejects the name part, the error of
    [Entry.IsValid] starts with that very cause. *)
Theorem X2_validators_agree_on_names :
  forall e,
    (EntryM.IsValid e = None -> FullNameM.IsValid (names_of e) = "")
    /\ (FullNameM.IsValid (names_of e) <> "" ->
        exists rest,
          EntryM.IsValid e = Some (FullNameM.IsValid (names_of e) ++ rest)).
Proof.
  intros e.
  assert (Hc : EntryM.errContent e
               = (FullNameM.errContent (names_of e)
                  ++ (EntryM.age_case (Age e) ++ EntryM.gender_case (Gender e)
                      ++ EntryM.nationality_case (Nationality e)))%list).
  { unfold EntryM.errContent, FullNameM.errContent. simpl.
    rewrite <- app_assoc. reflexivity. }
  split.
  - rewrite Entry_IsValid_nil_iff, IsValid_empty_iff, Hc.
    intros H. apply app_eq_nil in H. tauto.
  - intros Hbad.
    assert (Hne : FullNameM.errContent (names_of e) <> [])
      by (intros E; apply Hbad, IsValid_empty_iff; exact E).
    unfold EntryM.IsValid. rewrite Hc.
    destruct (FullNameM.errContent (names_of e)) as [|x l] eqn:E;
      [congruence|].
    simpl length. simpl Nat.eqb. cbv iota.
    rewrite Join_app by discriminate.
    rewrite IsValid_is_Join, E. eexists. reflexivity.
Qed.

Lemma X2_validators_agree_on_names_witness :
  let e := mkEntry 0 "1" "Ivanov" "" 0 "male" "RU" in
  FullNameM.IsValid (names_of e) = "name is too short"
  /\ EntryM.IsValid e = Some "name is too short, age contains invalid data"
  /\ exists rest,
       EntryM.IsValid e = Some (FullNameM.IsValid (names_of e) ++ rest).
Proof.
  split; [vm_compute; reflexivity|]. split; [vm_compute; reflexivity|].
  apply (X2_validators_agree_on_names
           (mkEntry 0 "1" "Ivanov" "" 0 "male" "RU")).
  vm_compute. discriminate.
Defined.

(** X3: a name and a surname [FullName.IsValid] accepts have between 1 and
    50 letters, each taking one or two bytes, and every byte of them below
    128 is a letter a-z or A-Z: no digit, blank, line break or punctuation
    mark passes, wherever it stands. *)
Theorem X3_IsValid_accepted_letters :
  forall e v,
    FullNameM.IsValid e = "" ->
    v = fn_Name e \/ v = fn_Surname e ->
    (1 <= Utf8.RuneCount v <= 50)%nat
    /\ (Utf8.RuneCount v <= String.length v <= 2 * Utf8.RuneCount v)%nat
    /\ (forall b, In b (Utf8.bytes_of v) -> (b < 128)%Z -> ascii_letter b).
Proof.
  intros e v Hv Hsel. apply IsValid_accepts_iff in Hv.
  assert (Hok : field_ok v) by (destruct Hsel as [-> | ->]; tauto).
  destruct (field_ok_letters v Hok) as (H1 & H2 & H3).
  split; [exact H1|]. split; [|exact H3].
  split; [|exact H2].
  destruct Hok as (_ & _ & Hall).
  unfold Utf8.RuneCount, Utf8.runes in *.
  rewrite <- bytes_of_length.
  apply runes_width; [lia|].
  eapply Forall_impl; [|exact Hall]. intros r Hr.
  apply name_class_bound in Hr. tauto.
Qed.

Lemma X3_IsValid_accepted_letters_witness :
  Utf8.RuneCount "Наталья" = 7%nat /\ String.length "Наталья" = 14%nat
  /\ (1 <= Utf8.RuneCount "Наталья" <= 50)%nat
  /\ (Utf8.RuneCount "Наталья" <= String.length "Наталья"
      <= 2 * Utf8.RuneCount "Наталья")%nat
  /\ (forall b, In b (Utf8.bytes_of "Наталья") -> (b < 128)%Z -> ascii_letter b).
Proof.
  split; [vm_compute; reflexivity|]. split; [vm_compute; reflexivity|].
  apply (X3_IsValid_accepted_letters (mkFullName "Наталья" "Ivanova" "" "")).
  - vm_compute. reflexivity.
  - left. reflexivity.
Defined.

(** ** Runs of [Enrich] without a panic *)

Section Calm.

Lemma age_never_panics w name : panics (age w name) = false.
Proof.
  unfold age. destruct (apiReq w _) as [[err|] m];
    destruct (lookup m "age"); reflexivity.
Qed.

Lemma gender_never_panics w name : panics (gender w name) = false.
Proof.
  unfold gender. destruct (apiReq w _) as [[err|] m];
    destruct (lookup m "gender"); reflexivity.
Qed.

Lemma Enrich_calm w e name :
  panics (nationality w name) = false -> calm (Enrich w e name).
Proof.
  intros H. unfold calm; simpl.
  rewrite age_never_panics, gender_never_panics. auto.
Qed.

(** Without a panic ahead nothing ends the process: a send never meets a
    closed channel, which is closed only after every goroutine returned. *)
Lemma estep_calm t s s' :
  estep t s = Some s' -> waited s -> calm s -> calm s'.
Proof.
  destruct s as [e ch cl tk ga gg gn r cr].
  unfold waited, calm. intros H (Ht & _ & _ & _ & Hc & _) (Pa & Pg & Pn & Hcr).
  step_cases H; simpl in *; try discriminate; auto;
    try (specialize (Hc eq_refl); lia).
Qed.

Lemma erun_calm w e name sched s :
  panics (nationality w name) = false ->
  erun sched (Enrich w e name) = Some s ->
  einv w e name s /\ calm s.
Proof.
  intros Hp.
  apply (erun_invariant (fun q => einv w e name q /\ calm q)).
  - intros t q q' Hs [Hi Hc]. split.
    + eapply estep_einv; eauto.
    + eapply estep_calm; eauto. apply Hi.
  - split; [apply Enrich_einv | apply Enrich_calm; exact Hp].
Qed.

Lemma no_failure_no_panic w name :
  sends (nationality w name) = [] -> panics (nationality w name) = false.
Proof.
  unfold nationality.
  destruct (apiReq w _) as [[err|] m]; try discriminate;
    destruct (lookup m "country") as [| | | |[|first l]|]; try discriminate.
  destruct first as [| | | | |fc]; try discriminate.
  destruct (lookup fc "country_id"); try discriminate. reflexivity.
Qed.

(** The one store of a lookup: the value its answer carries under the key,
    when it has the expected type, and the zero value otherwise. *)
Lemma apiReq_decoded w url : snd (apiReq w url) = decoded (http_Get w url).
Proof. unfold apiReq. destruct (http_Get w url); reflexivity. Qed.

Lemma stores_app {V} (p q : list (action V)) :
  stores (p ++ q) = (stores p ++ stores q)%list.
Proof.
  induction p as [|[m|v|m|] p IH]; simpl; auto. rewrite IH. reflexivity.
Qed.

Lemma stores_send_if {V} err : stores (@send_if V err) = [].
Proof. destruct err; reflexivity. Qed.

Lemma stores_send_when {V} c m : stores (@send_when V c m) = [].
Proof. destruct c; reflexivity. Qed.

Lemma age_stores w name :
  stores (age w name)
  = [match lookup (decoded (http_Get w ("https://api.agify.io/?name=" ++ name)))
             "age" with
     | JNum f => uint8_of_float64 w f
     | _ => 0%Z
     end].
Proof.
  unfold age. rewrite <- apiReq_decoded.
  destruct (apiReq w _) as [err m]. simpl snd.
  rewrite stores_app, stores_send_if.
  destruct (lookup m "age"); reflexivity.
Qed.

Lemma gender_stores w name :
  stores (gender w name)
  = [match lookup
             (decoded (http_Get w ("https://api.genderize.io/?name=" ++ name)))
             "gender" with
     | JStr v => v
     | _ => ""
     end].
Proof.
  unfold gender. rewrite <- apiReq_decoded.
  destruct (apiReq w _) as [err m]. simpl snd.
  rewrite stores_app, stores_send_if.
  destruct (lookup m "gender"); reflexivity.
Qed.

Lemma nationality_stores w name :
  panics (nationality w name) = false ->
  exists first rest,
    lookup (decoded (http_Get w ("https://api.nationalize.io/?name=" ++ name)))
      "country" = JArr (first :: rest)
    /\ stores (nationality w name)
       = [match first with
          | JObj m => match lookup m "country_id" with
                      | JStr v => v
                      | _ => ""
                      end
          | _ => ""
          end].
Proof.
  unfold nationality. rewrite <- apiReq_decoded.
  destruct (apiReq w _) as [err m]. simpl snd.
  destruct (lookup m "country") as [| | | |[|first l]|];
    try (destruct err; discriminate).
  intros _. exists first, l. split; [reflexivity|].
  rewrite stores_app, stores_send_if. simpl.
  destruct first as [| | | | |fc]; simpl; try reflexivity.
  destruct (lookup fc "country_id"); reflexivity.
Qed.

Lemma terminal_returned s :
  waited s -> eterminal s = true -> crashed s = false -> ret s <> None.
Proof.
  intros Hw Ht Hc Hr. rewrite eterminal_spec in Ht.
  destruct (estep_progress s Hw Hc Hr) as [t Hs]. apply Hs, Ht.
Qed.

Lemma terminal_closed s :
  eterminal s = true -> crashed s = false -> tasks s = 0 -> closed s = true.
Proof.
  intros Ht Hc Hk. rewrite eterminal_spec in Ht. specialize (Ht TCloser).
  unfold estep in Ht. rewrite Hc, Hk in Ht. simpl in Ht.
  destruct (closed s); [reflexivity | discriminate].
Qed.

End Calm.

(** X4: with at most two errors to report and no empty ranking, [Enrich]
    and its goroutines never crash the process and never leak: every
    execution that ends has [Enrich] returned, the three goroutines returned,
    the wait group at zero and the channel closed. *)
Theorem X4_two_errors_never_block :
  forall w e name sched s,
    panics (nationality w name) = false ->
    length (failures w name) <= 2 ->
    erun sched (Enrich w e name) = Some s ->
    crashed s = false
    /\ (eterminal s = true ->
        ret s <> None
        /\ g_age s = [] /\ g_gender s = [] /\ g_nation s = []
        /\ tasks s = 0 /\ closed s = true).
Proof.
  intros w e name sched s Hp Htwo Hrun.
  destruct (erun_calm _ _ _ _ _ Hp Hrun)
    as [((Hcap & Hacc) & Hw & _) (_ & _ & _ & Hc)].
  split; [exact Hc|]. intros Ht.
  pose proof (terminal_returned s Hw Ht Hc) as Hret.
  split; [exact Hret|].
  assert (Hall : g_age s = [] /\ g_gender s = [] /\ g_nation s = []).
  { destruct (ret s) as [[m|]|] eqn:Er; [| |congruence].
    - destruct (terminal_blocked s Ht Hc) as (Ba & Bg & Bn).
      unfold sends_left, received in Hacc. rewrite Er in Hacc.
      destruct (g_age s) as [|a qa].
      2:{ exfalso. specialize (Ba ltac:(discriminate)).
          apply blocked_full in Ba. lia. }
      destruct (g_gender s) as [|g qg].
      2:{ exfalso. specialize (Bg ltac:(discriminate)).
          apply blocked_full in Bg. lia. }
      destruct (g_nation s) as [|n qn].
      2:{ exfalso. specialize (Bn ltac:(discriminate)).
          apply blocked_full in Bn. lia. }
      auto.
    - apply closed_all_returned; [exact Hw | apply Hw; exact Er]. }
  destruct Hall as (Ea & Eg & En).
  assert (Hk : tasks s = 0).
  { destruct Hw as (Hk & _). rewrite Hk, Ea, Eg, En. reflexivity. }
  repeat split; auto. apply terminal_closed; auto.
Qed.

Lemma X4_two_errors_never_block_witness :
  length (failures (Sample.world Sample.not_json Sample.gender_ok Sample.nation_ok)
            "Ivan") = 2
  /\ exists s,
       erun [TAge; TMain; TAge; TAge; TAge; TGender; TGender; TNation;
             TNation; TCloser]
         (Enrich (Sample.world Sample.not_json Sample.gender_ok Sample.nation_ok)
            (new_entry Sample.Ivan) "Ivan") = Some s
       /\ errCh s = ["age data not found"]
       /\ crashed s = false
       /\ (eterminal s = true ->
           ret s <> None
           /\ g_age s = [] /\ g_gender s = [] /\ g_nation s = []
           /\ tasks s = 0 /\ closed s = true).
Proof.
  split; [vm_compute; reflexivity|].
  eexists. split; [vm_compute; reflexivity|]. split; [reflexivity|].
  apply (X4_two_errors_never_block
           (Sample.world Sample.not_json Sample.gender_ok Sample.nation_ok)
           (new_entry Sample.Ivan) "Ivan"
           [TAge; TMain; TAge; TAge; TAge; TGender; TGender; TNation;
            TNation; TCloser]).
  - vm_compute. reflexivity.
  - vm_compute. lia.
  - vm_compute. reflexivity.
Defined.

(** X5: when no lookup fails, whatever the schedule, the process does not
    crash and [Enrich] never returns a failure; every execution that ends
    has [Enrich] returned nil with the channel closed, the wait group at
    zero, and the three fields holding what the services answered. *)
Theorem X5_Enrich_succeeds_when_no_lookup_fails :
  forall w e name sched s,
    failures w name = [] ->
    erun sched (Enrich w e name) = Some s ->
    crashed s = false
    /\ (forall err, ret s <> Some (Some err))
    /\ (eterminal s = true ->
        ret s = Some None /\ closed s = true /\ tasks s = 0
        /\ (exists m n,
              http_Get w ("https://api.agify.io/?name=" ++ name) = Object m
              /\ lookup m "age" = JNum n
              /\ Age (entry s) = uint8_of_float64 w n)
        /\ (exists m,
              http_Get w ("https://api.genderize.io/?name=" ++ name) = Object m
              /\ lookup m "gender" = JStr (Gender (entry s)))
        /\ (exists m fc rest,
              http_Get w ("https://api.nationalize.io/?name=" ++ name) = Object m
              /\ lookup m "country" = JArr (JObj fc :: rest)
              /\ lookup fc "country_id" = JStr (Nationality (entry s)))).
Proof.
  intros w e name sched s Hnone Hrun.
  destruct (failures_nil _ _ Hnone) as (Fa & Fg & Fn).
  pose proof (no_failure_no_panic _ _ Fn) as Hp.
  destruct (erun_calm _ _ _ _ _ Hp Hrun)
    as [(_ & Hw & Hr & _ & _ & Hnil) (_ & _ & _ & Hc)].
  split; [exact Hc|].
  assert (Hnoerr : forall err, ret s <> Some (Some err)).
  { intros err E. apply Hr in E. rewrite Hnone in E. contradiction. }
  split; [exact Hnoerr|].
  intros Ht. pose proof (terminal_returned s Hw Ht Hc) as Hret.
  assert (E : ret s = Some None).
  { destruct (ret s) as [[m|]|]; [exfalso; eapply Hnoerr; eauto | auto
                                 | congruence]. }
  assert (Hcl : closed s = true) by (apply Hw; exact E).
  assert (Hk : tasks s = 0).
  { destruct (closed_all_returned s Hw Hcl) as (Ea' & Eg' & En').
    destruct Hw as (Hk & _). rewrite Hk, Ea', Eg', En'. reflexivity. }
  destruct (Hnil E) as (_ & _ & Ea & Eg & En).
  destruct (age_no_failure _ _ Fa) as (ma & n & Ga & La & Sa).
  destruct (gender_no_failure _ _ Fg) as (mg & g & Gg & Lg & Sg).
  destruct (nationality_no_failure _ _ Fn)
    as (mn & fc & rest & c & Gn & Ln & Lc & Sn).
  rewrite (Ea _ Sa), (Eg _ Sg), (En _ Sn).
  split; [exact E|]. split; [exact Hcl|]. split; [exact Hk|].
  split; [exists ma, n; auto|].
  split; [exists mg; auto | exists mn, fc, rest; auto].
Qed.

Lemma X5_Enrich_succeeds_when_no_lookup_fails_witness :
  exists s,
    erun [TNation; TGender; TAge; TNation; TAge; TGender; TCloser; TMain]
      (Enrich Sample.all_ok (new_entry Sample.Ivan) "Ivan") = Some s
    /\ eterminal s = true
    /\ entry s = mkEntry 0 "Ivan" "Ivanov" "Ivanovich" 49 "male" "HR"
    /\ crashed s = false
    /\ (forall err, ret s <> Some (Some err))
    /\ (eterminal s = true ->
        ret s = Some None /\ closed s = true /\ tasks s = 0
        /\ (exists m n,
              http_Get Sample.all_ok ("https://api.agify.io/?name=" ++ "Ivan")
              = Object m
              /\ lookup m "age" = JNum n
              /\ Age (entry s) = uint8_of_float64 Sample.all_ok n)
        /\ (exists m,
              http_Get Sample.all_ok ("https://api.genderize.io/?name=" ++ "Ivan")
              = Object m
              /\ lookup m "gender" = JStr (Gender (entry s)))
        /\ (exists m fc rest,
              http_Get Sample.all_ok
                ("https://api.nationalize.io/?name=" ++ "Ivan") = Object m
              /\ lookup m "country" = JArr (JObj fc :: rest)
              /\ lookup fc "country_id" = JStr (Nationality (entry s)))).
Proof.
  eexists. split; [vm_compute; reflexivity|].
  split; [vm_compute; reflexivity|]. split; [reflexivity|].
  apply (X5_Enrich_succeeds_when_no_lookup_fails Sample.all_ok
           (new_entry Sample.Ivan) "Ivan"
           [TNation; TGender; TAge; TNation; TAge; TGender; TCloser; TMain]).
  - vm_compute. reflexivity.
  - vm_compute. reflexivity.
Defined.

(** X6: a lookup goroutine stores through its result pointer on every
    path, whatever it reported and whatever the receiver held before the
    call.  Once it has returned, the field holds the value its answer
    carries under the key when that value has the expected type, also when
    the decoder reported an error next to it, and the zero value otherwise
    (0 for the age, the empty string for gender and nationality).  The
    nationality goroutine returns only when the ranking has a first
    element, and stores its [country_id]. *)
Theorem X6_returned_lookup_has_stored_its_answer :
  forall w e name sched s,
    erun sched (Enrich w e name) = Some s ->
    (g_age s = [] ->
     Age (entry s)
     = match lookup
               (decoded (http_Get w ("https://api.agify.io/?name=" ++ name)))
               "age" with
       | JNum f => uint8_of_float64 w f
       | _ => 0%Z
       end)
    /\ (g_gender s = [] ->
        Gender (entry s)
        = match lookup
                  (decoded
                     (http_Get w ("https://api.genderize.io/?name=" ++ name)))
                  "gender" with
          | JStr v => v
          | _ => ""
          end)
    /\ (g_nation s = [] ->
        exists first rest,
          lookup
            (decoded
               (http_Get w ("https://api.nationalize.io/?name=" ++ name)))
            "country" = JArr (first :: rest)
          /\ Nationality (entry s)
             = match first with
               | JObj m => match lookup m "country_id" with
                           | JStr v => v
                           | _ => ""
                           end
               | _ => ""
               end).
Proof.
  intros w e name sched s Hrun.
  destruct (erun_einv _ _ _ _ _ Hrun)
    as (_ & _ & _ & (Sa & Sg & Sn & Sp) & _).
  unfold store_inv in *.
  split; [|split].
  - intros Hg.
    destruct (Sa _ (age_stores w name)) as [H | [_ H]]; [|exact H].
    rewrite Hg in H. discriminate.
  - intros Hg.
    destruct (Sg _ (gender_stores w name)) as [H | [_ H]]; [|exact H].
    rewrite Hg in H. discriminate.
  - intros Hg.
    assert (Hp : panics (nationality w name) = false).
    { destruct (panics (nationality w name)); [|reflexivity].
      specialize (Sp eq_refl). rewrite Hg in Sp. discriminate. }
    destruct (nationality_stores w name Hp) as (first & rest & Hl & Hs).
    exists first, rest. split; [exact Hl|].
    destruct (Sn _ Hs) as [H | [_ H]]; [|exact H].
    rewrite Hg in H. discriminate.
Qed.

Lemma X6_returned_lookup_has_stored_its_answer_witness :
  age_failures Sample.count_misfit "Ivan"
  = ["json: cannot unmarshal number 1e999 into Go value of type float64"]
  /\ exists s,
       erun [TAge; TMain; TAge; TAge; TGender; TGender; TNation; TNation;
             TCloser]
         (Enrich Sample.count_misfit
            (mkEntry 7 "Ivan" "Ivanov" "Ivanovich" 30 "female" "RU") "Ivan")
       = Some s
       /\ ret s
          = Some (Some "json: cannot unmarshal number 1e999 into Go value of type float64")
       /\ g_age s = [] /\ g_gender s = [] /\ g_nation s = []
       /\ entry s = mkEntry 7 "Ivan" "Ivanov" "Ivanovich" 49 "male" "HR"
       /\ Age (entry s) = 49%Z.
Proof.
  split; [vm_compute; reflexivity|].
  eexists. split; [vm_compute; reflexivity|].
  split; [reflexivity|]. split; [reflexivity|]. split; [reflexivity|].
  split; [reflexivity|]. split; [reflexivity|].
  match goal with
  | |- Age (entry ?s) = _ =>
      pose proof (X6_returned_lookup_has_stored_its_answer Sample.count_misfit
                    (mkEntry 7 "Ivan" "Ivanov" "Ivanovich" 30 "female" "RU")
                    "Ivan"
                    [TAge; TMain; TAge; TAge; TGender; TGender; TNation;
                     TNation; TCloser] s) as H
  end.
  destruct H as (Ha & _ & _); [vm_compute; reflexivity|].
  rewrite Ha by reflexivity. vm_compute. reflexivity.
Defined.

(** ** What [ProcessMsg] leaves behind *)

Section Leftovers.

Lemma outcome_cases w msg f :
  outcome w msg f ->
  (exists err, json_Unmarshal w msg = inl err /\ f = Produce w msg)
  \/ (exists d, json_Unmarshal w msg = inr d
                /\ FullNameM.IsValid d <> ""
                /\ f = dead_letter w msg d (FullNameM.IsValid d))
  \/ (exists d e r, json_Unmarshal w msg = inr d
                    /\ FullNameM.IsValid d = ""
                    /\ f = ProcessMsg_finish w msg d e r).
Proof.
  intros [f' Hs | d s sched p f' Hs Hrun Hfx].
  - unfold ProcessMsg_start in Hs.
    destruct (json_Unmarshal w msg) as [err|d] eqn:E.
    + injection Hs as <-. left. eauto.
    + destruct (String.eqb (FullNameM.IsValid d) "") eqn:Ev; simpl in Hs;
        [discriminate|].
      injection Hs as <-. right; left. exists d.
      apply String.eqb_neq in Ev. auto.
  - apply start_Enriching in Hs. destruct Hs as (Hu & Hv & ->).
    pose proof (prun_pinv _ _ _ _ _ Hrun) as [_ Hf].
    destruct (Hf f' Hfx) as (r & e & _ & -> & _).
    right; right. exists d, e, r. auto.
Qed.

Lemma dead_letter_produced w msg d cause :
  produced (dead_letter w msg d cause) = [dead_letter_value w msg d cause]
  /\ rows (dead_letter w msg d cause) = []
  /\ flushes (dead_letter w msg d cause) = 0.
Proof.
  unfold dead_letter, dead_letter_value.
  destruct (json_Marshal w _); repeat split.
Qed.

End Leftovers.

(** X7: whenever a decodable message ends without a row, what [ProcessMsg]
    hands to the failure producer is the encoding of the decoded record
    with nothing but its [Error] replaced (the original payload if encoding
    fails), and the cause names what happened: the validator's message for
    a record it refuses; the fixed prefix followed by the very error
    [Enrich] returned, which is one of the failures of the lookups; or the
    fixed prefix followed by the error the store returned for the enriched
    entry it was asked to create. *)
Theorem X7_dead_letter_names_its_cause :
  forall w msg d,
    json_Unmarshal w msg = inr d ->
    (forall f,
       ProcessMsg_start w msg = Early f ->
       FullNameM.IsValid d <> ""
       /\ rows f = []
       /\ produced f = [dead_letter_value w msg d (FullNameM.IsValid d)])
    /\ (forall s sched p f,
          ProcessMsg_start w msg = Enriching d s ->
          prun w msg d sched (mkPState s None) = Some p ->
          fx p = Some f -> rows f = [] ->
          (exists m,
             ret (es p) = Some (Some m)
             /\ In m (failures w (fn_Name d))
             /\ produced f
                = [dead_letter_value w msg d
                     ("Failed to enrich data from API: " ++ m)])
          \/ (exists e m,
                ret (es p) = Some None
                /\ enriched w (fn_Name d) e
                /\ same_identity (new_entry d) e
                /\ db_Create w e = inl m
                /\ produced f
                   = [dead_letter_value w msg d
                        ("Failed to create entry: " ++ m)])).
Proof.
  intros w msg d Hd. split.
  - intros f Hs. unfold ProcessMsg_start in Hs. rewrite Hd in Hs.
    destruct (String.eqb (FullNameM.IsValid d) "") eqn:Ev; simpl in Hs;
      [discriminate|].
    injection Hs as <-. apply String.eqb_neq in Ev.
    destruct (dead_letter_produced w msg d (FullNameM.IsValid d))
      as (Hp & Hr & _).
    split; [exact Ev|]. split; [exact Hr | exact Hp].
  - intros s sched p f Hs Hrun Hfx Hrows.
    apply start_Enriching in Hs. destruct Hs as (_ & _ & ->).
    pose proof (prun_pinv _ _ _ _ _ Hrun) as [He Hf].
    destruct (Hf f Hfx) as (r & e & Hr & -> & Hn).
    destruct r as [m|].
    + left. exists m. split; [exact Hr|]. split.
      * destruct He as (_ & _ & (_ & _ & _ & _ & Hrep) & _).
        apply Hrep. exact Hr.
      * unfold ProcessMsg_finish. apply dead_letter_produced.
    + right. unfold ProcessMsg_finish in *.
      destruct (db_Create w e) as [m|id] eqn:Ec; [|discriminate].
      destruct (Hn eq_refl) as [Hen Hid].
      exists e, m. split; [exact Hr|]. split; [exact Hen|].
      split; [exact Hid|]. split; [exact Ec|].
      apply dead_letter_produced.
Qed.

Lemma X7_dead_letter_names_its_cause_witness :
  exists s p f,
    ProcessMsg_start Sample.two_missing Sample.msg_Ivan
    = Enriching Sample.Ivan s
    /\ prun Sample.two_missing Sample.msg_Ivan Sample.Ivan
         [TGender; TMain; TMain] (mkPState s None) = Some p
    /\ fx p = Some f
    /\ rows f = []
    /\ produced f
       = [Sample.encode
            (mkFullName "Ivan" "Ivanov" "Ivanovich"
               "Failed to enrich data from API: gender data not found")]
    /\ ((exists m,
           ret (es p) = Some (Some m)
           /\ In m (failures Sample.two_missing (fn_Name Sample.Ivan))
           /\ produced f
              = [dead_letter_value Sample.two_missing Sample.msg_Ivan
                   Sample.Ivan ("Failed to enrich data from API: " ++ m)])
        \/ (exists e m,
              ret (es p) = Some None
              /\ enriched Sample.two_missing (fn_Name Sample.Ivan) e
              /\ same_identity (new_entry Sample.Ivan) e
              /\ db_Create Sample.two_missing e = inl m
              /\ produced f
                 = [dead_letter_value Sample.two_missing Sample.msg_Ivan
                      Sample.Ivan ("Failed to create entry: " ++ m)])).
Proof.
  eexists. eexists. eexists.
  split; [vm_compute; reflexivity|]. split; [vm_compute; reflexivity|].
  split; [reflexivity|]. split; [reflexivity|].
  split; [vm_compute; reflexivity|].
  destruct (X7_dead_letter_names_its_cause Sample.two_missing Sample.msg_Ivan
              Sample.Ivan) as [_ H]; [vm_compute; reflexivity|].
  eapply (H _ [TGender; TMain; TMain]);
    [vm_compute; reflexivity | vm_compute; reflexivity | reflexivity
    | reflexivity].
Defined.

(** X8: [ProcessMsg] flushes the cache exactly when it wrote a row, once,
    and never on a path that ends at the failure producer; the row it
    writes is the entry with the key the store assigned. *)
Theorem X8_flush_follows_the_row :
  forall w msg f,
    outcome w msg f ->
    flushes f = length (rows f)
    /\ length (rows f) <= 1
    /\ (produced f <> [] -> flushes f = 0)
    /\ (forall row, In row (rows f) ->
          exists e id, db_Create w e = inr id /\ row = set_ID e id).
Proof.
  intros w msg f Ho. apply outcome_cases in Ho.
  assert (Hd : forall d cause,
             flushes (dead_letter w msg d cause)
             = length (rows (dead_letter w msg d cause))
             /\ length (rows (dead_letter w msg d cause)) <= 1
             /\ (produced (dead_letter w msg d cause) <> [] ->
                 flushes (dead_letter w msg d cause) = 0)
             /\ (forall row, In row (rows (dead_letter w msg d cause)) ->
                   exists e id, db_Create w e = inr id /\ row = set_ID e id)).
  { intros d cause.
    destruct (dead_letter_produced w msg d cause) as (_ & -> & ->).
    simpl. repeat split; auto. intros row []. }
  destruct Ho as [(err & _ & ->) | [(d & _ & _ & ->) | (d & e & r & _ & _ & ->)]].
  - simpl. repeat split; auto. intros row [].
  - apply Hd.
  - unfold ProcessMsg_finish. destruct r as [m|]; [apply Hd|].
    destruct (db_Create w e) as [m|id] eqn:E; [apply Hd|].
    simpl. repeat split; auto; [congruence|].
    intros row [<- | []]. eauto.
Qed.

Lemma X8_flush_follows_the_row_witness :
  exists f,
    outcome Sample.all_ok Sample.msg_Ivan f
    /\ rows f = [mkEntry 1 "Ivan" "Ivanov" "Ivanovich" 49 "male" "HR"]
    /\ flushes f = 1
    /\ (flushes f = length (rows f)
        /\ length (rows f) <= 1
        /\ (produced f <> [] -> flushes f = 0)
        /\ (forall row, In row (rows f) ->
              exists e id, db_Create Sample.all_ok e = inr id
                           /\ row = set_ID e id)).
Proof.
  assert (Ho : outcome Sample.all_ok Sample.msg_Ivan
                 (mkEffects [] []
                    [mkEntry 1 "Ivan" "Ivanov" "Ivanovich" 49 "male" "HR"] 1)).
  { apply (outcome_run Sample.all_ok Sample.msg_Ivan Sample.Ivan
             (Enrich Sample.all_ok (new_entry Sample.Ivan) "Ivan")
             [TAge; TAge; TGender; TGender; TNation; TNation; TCloser;
              TMain; TMain]
             (mkPState
                (mkEState (mkEntry 0 "Ivan" "Ivanov" "Ivanovich" 49 "male" "HR")
                   [] true 0 [] [] [] (Some None) false)
                (Some (mkEffects [] []
                         [mkEntry 1 "Ivan" "Ivanov" "Ivanovich" 49 "male" "HR"]
                         1)))).
    - vm_compute. reflexivity.
    - vm_compute. reflexivity.
    - reflexivity. }
  eexists. split; [exact Ho|]. split; [reflexivity|]. split; [reflexivity|].
  apply (X8_flush_follows_the_row Sample.all_ok Sample.msg_Ivan). exact Ho.
Defined.

(** ** The synchronous surface *)

Section Surface.

Lemma valid_persistable e : EntryM.IsValid e = None -> persistable e.
Proof.
  rewrite Entry_IsValid_nil_iff. unfold EntryM.errContent. intros H.
  apply app_eq_nil in H. destruct H as [Hn H].
  apply app_eq_nil in H. destruct H as [Hs H].
  apply app_eq_nil in H. destruct H as [Ha H].
  apply app_eq_nil in H. destruct H as [Hg Hc].
  apply name_case_nil in Hn. apply surname_case_nil in Hs.
  apply age_case_nil in Ha. apply gender_case_nil in Hg.
  apply nationality_case_nil in Hc.
  pose proof Hc as Hc'. apply countryPattern_spec in Hc'.
  destruct Hn as (Hn & _). destruct Hs as (Hs & _).
  destruct Hc as (c1 & c2 & Hc & _).
  unfold persistable.
  split; [exact Ha|]. split; [exact Hg|]. split; [exact Hc'|].
  split; [intros E; rewrite E in Hn; simpl in Hn; lia|].
  split; [intros E; rewrite E in Hs; simpl in Hs; lia|].
  split; [destruct Hg as [-> | ->]; discriminate | rewrite Hc; discriminate].
Qed.

Lemma IsValid_ignores_ID e id : EntryM.IsValid (set_ID e id) = EntryM.IsValid e.
Proof. reflexivity. Qed.

Lemma Create_writes b c bound x :
  In x (writes (Create b c bound)) -> EntryM.IsValid (written x) = None.
Proof.
  unfold Create. destruct bound as [e|]; [|intros []].
  destruct (EntryM.IsValid e) eqn:E; [intros []|].
  destruct (bk_Create b e); [intros []|].
  intros [<- | []]. simpl. rewrite IsValid_ignores_ID. exact E.
Qed.

Lemma Update_writes b c bound x :
  In x (writes (Update b c bound)) -> EntryM.IsValid (written x) = None.
Proof.
  unfold Update. destruct bound as [e|]; [|intros []].
  destruct (EntryM.IsValid e) eqn:E; [intros []|].
  destruct (bk_Updates b e) as [err|[|]]; [intros [] | | intros []].
  intros [<- | []]. exact E.
Qed.

Lemma created_entry_writes b c a x :
  In x (res_writes (created_entry b c a)) ->
  EntryM.IsValid (written x) = None
  /\ Age (written x) = uint8_of_int (arg_int a "age").
Proof.
  unfold created_entry.
  match goal with |- context [EntryM.IsValid ?e] =>
    destruct (EntryM.IsValid e) eqn:E; [intros []|];
    destruct (bk_Create b e); [intros []|]
  end.
  intros [<- | []]. simpl written. rewrite IsValid_ignores_ID.
  split; [exact E | reflexivity].
Qed.

Lemma updated_entry_writes b c a x :
  In x (res_writes (updated_entry b c a)) ->
  EntryM.IsValid (written x) = None
  /\ Age (written x) = uint8_of_int (arg_int a "age").
Proof.
  unfold updated_entry.
  match goal with |- context [EntryM.IsValid ?e] =>
    destruct (EntryM.IsValid e) eqn:E; [intros []|];
    destruct (bk_Updates b e) as [err|[|]]; [intros [] | | intros []]
  end.
  intros [<- | []]. split; [exact E | reflexivity].
Qed.

End Surface.

(** X9: no entry that [Entry.IsValid] refuses is ever written by [Create],
    [Update] or the resolvers of [created_entry] and [updated_entry]:
    whatever these write has an age of 1 to 120, a gender male or female, a
    nationality of two capitals and a non-empty name and surname. *)
Theorem X9_surface_writes_only_valid_entries :
  forall b c bound a x,
    In x (writes (Create b c bound) ++ writes (Update b c bound)
          ++ res_writes (created_entry b c a)
          ++ res_writes (updated_entry b c a)) ->
    EntryM.IsValid (written x) = None /\ persistable (written x).
Proof.
  intros b c bound a x Hin.
  assert (H : EntryM.IsValid (written x) = None).
  { repeat (apply in_app_or in Hin; destruct Hin as [Hin | Hin]).
    - eapply Create_writes; eauto.
    - eapply Update_writes; eauto.
    - eapply created_entry_writes; eauto.
    - eapply updated_entry_writes; eauto. }
  split; [exact H | apply valid_persistable; exact H].
Qed.

Lemma X9_surface_writes_only_valid_entries_witness :
  writes (Create SampleApi.backend SampleApi.empty (Some SampleApi.Ivan))
  = [Created (mkEntry 1 "Ivan" "Ivanov" "Ivanovich" 49 "male" "HR")]
  /\ EntryM.IsValid (mkEntry 1 "Ivan" "Ivanov" "Ivanovich" 49 "male" "HR") = None
  /\ persistable (mkEntry 1 "Ivan" "Ivanov" "Ivanovich" 49 "male" "HR").
Proof.
  split; [reflexivity|].
  apply (X9_surface_writes_only_valid_entries SampleApi.backend SampleApi.empty
           (Some SampleApi.Ivan) []
           (Created (mkEntry 1 "Ivan" "Ivanov" "Ivanovich" 49 "male" "HR"))).
  vm_compute. left. reflexivity.
Defined.



(** X11: the resolvers convert the age with [uint8(age)], so they see it
    modulo 256 only: two argument lists that agree but for ages congruent
    modulo 256 are resolved alike, and the age written is the requested one
    modulo 256. *)
Theorem X11_resolvers_take_the_age_modulo_256 :
  forall b c a1 a2,
    (forall k, k <> "age" -> arg a1 k = arg a2 k) ->
    (arg_int a1 "age" mod 256 = arg_int a2 "age" mod 256)%Z ->
    created_entry b c a1 = created_entry b c a2
    /\ updated_entry b c a1 = updated_entry b c a2
    /\ (forall x, In x (res_writes (created_entry b c a1)
                        ++ res_writes (updated_entry b c a1)) ->
                  Age (written x) = (arg_int a2 "age" mod 256)%Z).
Proof.
  intros b c a1 a2 Hsame Hage.
  assert (Hs : forall k, k <> "age" -> arg_string a1 k = arg_string a2 k)
    by (intros k Hk; unfold arg_string; rewrite (Hsame k Hk); reflexivity).
  assert (Hi : arg_int a1 "id" = arg_int a2 "id")
    by (unfold arg_int; rewrite (Hsame "id") by discriminate; reflexivity).
  split; [|split].
  - unfold created_entry, uint8_of_int.
    rewrite Hage, !(Hs _) by discriminate. reflexivity.
  - unfold updated_entry, uint8_of_int.
    rewrite Hage, Hi, !(Hs _) by discriminate. reflexivity.
  - intros x Hin. rewrite <- Hage.
    apply in_app_or in Hin. destruct Hin as [Hin | Hin].
    + apply created_entry_writes in Hin. apply Hin.
    + apply updated_entry_writes in Hin. apply Hin.
Qed.

Lemma X11_resolvers_take_the_age_modulo_256_witness :
  let a1 := [("name", GStr "Ivan"); ("surname", GStr "Ivanov");
             ("age", GInt 300); ("gender", GStr "male");
             ("nationality", GStr "RU")] in
  let a2 := [("name", GStr "Ivan"); ("surname", GStr "Ivanov");
             ("age", GInt 44); ("gender", GStr "male");
             ("nationality", GStr "RU")] in
  value (created_entry SampleApi.backend SampleApi.empty a1)
  = inr (mkEntry 1 "Ivan" "Ivanov" "" 44 "male" "RU")
  /\ created_entry SampleApi.backend SampleApi.empty a1
     = created_entry SampleApi.backend SampleApi.empty a2
  /\ updated_entry SampleApi.backend SampleApi.empty a1
     = updated_entry SampleApi.backend SampleApi.empty a2
  /\ (forall x, In x (res_writes (created_entry SampleApi.backend
                                    SampleApi.empty a1)
                      ++ res_writes (updated_entry SampleApi.backend
                                       SampleApi.empty a1)) ->
                Age (written x) = (arg_int a2 "age" mod 256)%Z).
Proof.
  intros a1 a2. split; [vm_compute; reflexivity|].
  apply (X11_resolvers_take_the_age_modulo_256 SampleApi.backend
           SampleApi.empty a1 a2).
  - intros k Hk. subst a1 a2. simpl.
    repeat match goal with
           | |- context [String.eqb k ?s] =>
               destruct (String.eqb k s) eqn:?; [try reflexivity|]
           end; try reflexivity.
    exfalso. apply Hk. apply String.eqb_eq. assumption.
  - vm_compute. reflexivity.
Defined.

(** ** [Read] and the cache *)

Section Reading.

Lemma filled_passes col data :
  col <> "" -> data <> "" ->
  (negb (is_empty col) && is_empty data) || (is_empty col && negb (is_empty data))
  = false
  /\ negb (is_empty col) && negb (is_empty data) = true.
Proof.
  intros Hc Hd. destruct col; [congruence|]. destruct data; [congruence|].
  split; reflexivity.
Qed.

(** The key joins column and data with a colon, and nothing else tells
    them apart. *)
Lemma cacheKey_joins n m col data col' data' :
  col ++ ":" ++ data = col' ++ ":" ++ data' ->
  cacheKey n m col data = cacheKey n m col' data'.
Proof.
  unfold cacheKey. intros H. rewrite H. reflexivity.
Qed.

(** A hit answers with what the cached value decodes to, and asks the
    store nothing. *)
Lemma Read_hit b c q n m v :
  (negb (is_empty (q_col q)) && is_empty (q_data q))
  || (is_empty (q_col q) && negb (is_empty (q_data q))) = false ->
  Atoi (DefaultQuery (q_size q) "10") = Some n ->
  Atoi (DefaultQuery (q_page q) "1") = Some m ->
  cache_Get b c (cacheKey n m (q_col q) (q_data q)) = Some v ->
  Read b c q = mkResult (mkReply 200 (EntriesBody (snd (bk_Unmarshal b v)))) [] c.
Proof.
  intros Hf Hn Hm Hg. unfold Read. rewrite Hf, Hn, Hm, Hg.
  destruct (bk_Unmarshal b v). reflexivity.
Qed.

(** A write handler that answered 200 went through its flush. *)
Lemma ok_has_flushed h b c bound :
  h = Create \/ h = Update \/ h = Delete ->
  status (reply (h b c bound)) = 200%Z ->
  cache_after (h b c bound) = cache_FlushAll b c.
Proof.
  intros [-> | [-> | ->]]; [unfold Create | unfold Update | unfold Delete];
    destruct bound as [e|]; simpl; try discriminate.
  - destruct (EntryM.IsValid e); simpl; try discriminate.
    destruct (bk_Create b e); simpl; [discriminate | reflexivity].
  - destruct (EntryM.IsValid e); simpl; try discriminate.
    destruct (bk_Updates b e); simpl; [discriminate | reflexivity].
  - destruct (bk_First b (ID e)); simpl; try discriminate.
    destruct (bk_Delete b _); simpl; [discriminate | reflexivity].
Qed.

End Reading.

(** X12: the cache key of [Read] joins the column and the data with a
    colon, so two filters that read alike once joined share one cache entry:
    when the first query is answered from the cache, the second gets the
    very same answer, without the store being asked about its own column. *)
Theorem X12_cache_key_mixes_column_and_data :
  forall b c q1 q2 n m v,
    q_size q2 = q_size q1 -> q_page q2 = q_page q1 ->
    q_col q1 <> "" -> q_data q1 <> "" -> q_col q2 <> "" -> q_data q2 <> "" ->
    q_col q1 ++ ":" ++ q_data q1 = q_col q2 ++ ":" ++ q_data q2 ->
    Atoi (DefaultQuery (q_size q1) "10") = Some n ->
    Atoi (DefaultQuery (q_page q1) "1") = Some m ->
    cache_Get b c (cacheKey n m (q_col q1) (q_data q1)) = Some v ->
    Read b c q2 = Read b c q1
    /\ reply (Read b c q2) = mkReply 200 (EntriesBody (snd (bk_Unmarshal b v))).
Proof.
  intros b c q1 q2 n m v Hs Hp Hc1 Hd1 Hc2 Hd2 Hj Hn Hm Hg.
  destruct (filled_passes _ _ Hc1 Hd1) as [F1 _].
  destruct (filled_passes _ _ Hc2 Hd2) as [F2 _].
  rewrite (Read_hit b c q1 n m v F1 Hn Hm Hg).
  rewrite (Read_hit b c q2 n m v F2); try congruence.
  - split; reflexivity.
  - rewrite <- (cacheKey_joins n m _ _ _ _ Hj). exact Hg.
Qed.

Lemma X12_cache_key_mixes_column_and_data_witness :
  let c : Cache := fun k => if String.eqb k "entries:10:1:name:a:b"
                            then Some "[ivan]" else None in
  let q1 := mkQuery None None "name" "a:b" in
  let q2 := mkQuery None None "name:a" "b" in
  Read SampleApi.backend c q2 = Read SampleApi.backend c q1
  /\ reply (Read SampleApi.backend c q2)
     = mkReply 200 (EntriesBody (snd (bk_Unmarshal SampleApi.backend "[ivan]"))).
Proof.
  intros c q1 q2.
  apply (X12_cache_key_mixes_column_and_data SampleApi.backend c q1 q2 10 1
           "[ivan]"); try reflexivity; try discriminate.
Defined.

(** X13: after a [Read] that missed the cache and was answered by the
    store, the same query is answered from the cache: the second [Read]
    returns what the cached encoding decodes to (the same entries when the
    codec round-trips), leaves the cache as it is, and does not depend on
    what the store would answer by then. *)
Theorem X13_second_Read_is_served_from_the_cache :
  forall b b' c q n m entries v,
    (negb (is_empty (q_col q)) && is_empty (q_data q))
    || (is_empty (q_col q) && negb (is_empty (q_data q))) = false ->
    Atoi (DefaultQuery (q_size q) "10") = Some n ->
    Atoi (DefaultQuery (q_page q) "1") = Some m ->
    cache_Get b c (cacheKey n m (q_col q) (q_data q)) = None ->
    bk_Find b n (wrap_int (wrap_int (m - 1) * n))
      (if negb (is_empty (q_col q)) && negb (is_empty (q_data q))
       then Some (q_col q, q_data q) else None) = inr entries ->
    bk_Marshal b entries = inr v ->
    bk_redis_up b = true -> bk_redis_up b' = true ->
    bk_Unmarshal b' v = (None, entries) ->
    reply (Read b c q) = mkReply 200 (EntriesBody entries)
    /\ Read b' (cache_after (Read b c q)) q
       = mkResult (mkReply 200 (EntriesBody entries)) []
           (cache_after (Read b c q)).
Proof.
  intros b b' c q n m entries v Hf Hn Hm Hmiss Hfind Hmar Hup Hup' Hun.
  assert (E : Read b c q
              = mkResult (mkReply 200 (EntriesBody entries)) []
                  (cache_Set b c (cacheKey n m (q_col q) (q_data q)) v)).
  { unfold Read. rewrite Hf, Hn, Hm, Hmiss, Hfind, Hmar. reflexivity. }
  rewrite E. simpl. split; [reflexivity|].
  rewrite (Read_hit b' _ q n m v Hf Hn Hm).
  - rewrite Hun. reflexivity.
  - unfold cache_Get, cache_Set. rewrite Hup, Hup', String.eqb_refl.
    reflexivity.
Qed.

Lemma X13_second_Read_is_served_from_the_cache_witness :
  let q := mkQuery (Some "5") (Some "2") "name" "Iv" in
  let b' := mkBackend (fun _ => inr 1%Z) (fun _ => inr true)
              (fun _ => inl "record not found") (fun _ => None)
              (fun _ _ _ => inr []) true (fun _ => inr "[]")
              (bk_Unmarshal SampleApi.backend) in
  reply (Read b' SampleApi.empty q) = mkReply 200 (EntriesBody [])
  /\ reply (Read SampleApi.backend SampleApi.empty q)
     = mkReply 200 (EntriesBody SampleApi.stored)
  /\ Read b' (cache_after (Read SampleApi.backend SampleApi.empty q)) q
     = mkResult (mkReply 200 (EntriesBody SampleApi.stored)) []
         (cache_after (Read SampleApi.backend SampleApi.empty q)).
Proof.
  intros q b'. split; [reflexivity|].
  apply (X13_second_Read_is_served_from_the_cache SampleApi.backend b'
           SampleApi.empty q 5 2 SampleApi.stored "[ivan]");
    reflexivity.
Defined.

(** X14: a write handler that answers 200 while Redis takes its commands
    leaves an empty cache, so the next [Read] finds nothing cached and is
    answered as from an empty cache; but when the flush fails the handler
    still answers 200 and the cache, stale entries included, stays as it
    was. *)
Theorem X14_cache_after_a_write :
  forall h b c bound,
    h = Create \/ h = Update \/ h = Delete ->
    status (reply (h b c bound)) = 200%Z ->
    (bk_redis_up b = true ->
     forall b' q,
       Read b' (cache_after (h b c bound)) q = Read b' (fun _ => None) q
       /\ forall k, cache_Get b' (cache_after (h b c bound)) k = None)
    /\ (bk_redis_up b = false -> cache_after (h b c bound) = c).
Proof.
  intros h b c bound Hh H200.
  rewrite (ok_has_flushed h b c bound Hh H200). unfold cache_FlushAll. split; intros Hup; rewrite Hup.
  - intros b' q. split; [reflexivity|].
    intros k. unfold cache_Get. destruct (bk_redis_up b'); reflexivity.
  - reflexivity.
Qed.

Lemma X14_cache_after_a_write_witness :
  let c : Cache := fun k => if String.eqb k "entries:10:1::"
                            then Some "[ivan]" else None in
  let down := mkBackend (fun _ => inr 2%Z) (fun _ => inr true)
                (fun _ => inl "record not found") (fun _ => None)
                (fun _ _ _ => inr []) false (fun _ => inr "[]")
                (bk_Unmarshal SampleApi.backend) in
  let up := mkBackend (fun _ => inr 3%Z) (fun _ => inr true)
              (fun _ => inl "record not found") (fun _ => None)
              (fun _ _ _ => inr []) true (fun _ => inr "[]")
              (bk_Unmarshal SampleApi.backend) in
  reply (Create down c (Some SampleApi.Ivan))
  = mkReply 200 (Message "message" "Success")
  /\ reply (Read up (fun _ => None) (mkQuery None None "" ""))
     = mkReply 200 (EntriesBody [])
  /\ reply (Read up (cache_after (Create down c (Some SampleApi.Ivan)))
              (mkQuery None None "" ""))
     = mkReply 200 (EntriesBody SampleApi.stored)
  /\ (bk_redis_up down = true ->
      forall b' q,
        Read b' (cache_after (Create down c (Some SampleApi.Ivan))) q
        = Read b' (fun _ => None) q
        /\ forall k,
             cache_Get b' (cache_after (Create down c (Some SampleApi.Ivan))) k
             = None)
  /\ (bk_redis_up down = false ->
      cache_after (Create down c (Some SampleApi.Ivan)) = c).
Proof.
  intros c down up. split; [reflexivity|]. split; [reflexivity|].
  split; [reflexivity|].
  apply (X14_cache_after_a_write Create down c (Some SampleApi.Ivan)).
  - left. reflexivity.
  - reflexivity.
Defined.
